(** * acodex-server: the terminal session bridge of [src/terminal-server.ts]

    A shallow embedding of the session table, the HTTP handlers
    ([POST /terminals], [POST /terminals/:pid/size],
    [POST /terminals/:pid/terminate]), the WebSocket connection handler and
    the callbacks it installs, as a state machine over an explicit heap of
    the JavaScript objects involved (pty processes, headless terminals,
    sockets).  Each handler is one synchronous run-to-completion step, as in
    Node's event loop.

    The collaborators (node-pty, xterm-headless with its serialize addon,
    ws, express) are modelled at their interface: a call is recorded on the
    object it is made on, in program order, and what a call returns that
    the handlers do not decide (the pid of a spawned process, the
    serialization of a terminal, whether a resize is accepted) is a
    parameter.  The one-shot [/execute-command] route keeps no state and is
    left out. *)

From Stdlib Require Import ZArith String Ascii List Bool Lia.
From stdpp Require Import base option list gmap strings pretty.

Local Open Scope string_scope.
Local Open Scope list_scope.
Local Open Scope Z_scope.

(** ** JavaScript values used by the handlers *)

Module JS.

(** A JavaScript number as the handlers use it: an integer or [NaN].
    [parseInt] yields an IEEE double; the embedding keeps the mathematical
    integer, which is the same value up to 2^53. *)
Abbreviation Num := (option Z) (only parsing).
Abbreviation NaN := (@None Z) (only parsing).

(** [StrWhiteSpaceChar] restricted to the 8-bit alphabet of [string]:
    TAB, LF, VT, FF, CR, SP and NBSP. *)
Definition is_white_space (a : ascii) : bool :=
  let n := N_of_ascii a in
  ((9 <=? n) && (n <=? 13) || (n =? 32) || (n =? 160))%N.

Fixpoint trim_start (s : string) : string :=
  match s with
  | String a r => if is_white_space a then trim_start r else s
  | EmptyString => s
  end.

Definition digit (a : ascii) : option Z :=
  let n := Z.of_N (N_of_ascii a) in
  if (48 <=? n) && (n <=? 57) then Some (n - 48) else None.

(** The longest prefix of decimal digits, accumulated left to right;
    [acc] is [None] until a first digit has been read. *)
Fixpoint digits (s : string) (acc : option Z) : option Z :=
  match s with
  | String a r =>
      match digit a with
      | Some d => digits r (Some (10 * default 0 acc + d))
      | None => acc
      end
  | EmptyString => acc
  end.

(** [parseInt(s, 10)]: skip leading white space, read an optional sign,
    then the longest run of decimal digits; [NaN] when there is none. *)
Definition parseInt (s : string) : Num :=
  match trim_start s with
  | String "-" r => Z.opp <$> digits r None
  | String "+" r => digits r None
  | r => digits r None
  end.

(** [x || d] on numbers: [NaN] and [0] are falsy. *)
Definition or_default (x : Num) (d : Z) : Z :=
  match x with
  | Some n => if n =? 0 then d else n
  | None => d
  end.

(** Truthiness of a string: the empty string is falsy. *)
Definition truthy (s : string) : bool :=
  match s with
  | EmptyString => false
  | String _ _ => true
  end.

End JS.

(** ** The heap: objects the handlers and their closures share *)

(** Object identity: the index of the object in its heap. *)
Abbreviation ref := nat (only parsing).

(** What [term.onData] and friends return: the pty and the registration to
    remove from it on [dispose()]. *)
Abbreviation Disposable := (nat * nat)%type (only parsing).

(** The two closures the server registers with [term.onData]. *)
Inductive DataListener :=
| BufferData (term_pid : Z)
    (* lines 75-77: sessions[term.pid].terminalData += data *)
| FanOut (xterm : ref) (ws : ref).
    (* lines 128-139: try { xterm.write(data); ws.send(data) } catch {} *)

(** The closure terminate registers with [term.onExit] (lines 182-187):
    [xterm.dispose(); delete sessions[pid]]. *)
Record ExitListener := mkExitListener {
  exit_xterm : ref;
  exit_pid : Z
}.

(** A node-pty process handle. *)
Record Pty := mkPty {
  pid : Z;
  pty_cols : JS.Num;
  pty_rows : JS.Num;
  onData : list (nat * DataListener);
  onExit : list ExitListener;
  kills : nat;              (* calls of term.kill() *)
  input : list string;      (* arguments of term.write(), oldest first *)
  exited : bool             (* the exit event has fired *)
}.

(** A headless xterm together with the serialize addon loaded into it. *)
Record Terminal := mkTerminal {
  cols : JS.Num;
  rows : JS.Num;
  written : list string;    (* arguments of xterm.write(), oldest first *)
  disposals : nat;          (* calls of xterm.dispose() *)
  addon_disposals : nat     (* calls of serializeAddon.dispose() *)
}.

(** What the [message] and [close] callbacks of a socket close over. *)
Record Connection := mkConnection {
  conn_pid : Z;
  conn_term : ref;
  conn_addon : ref
}.

Record Socket := mkSocket {
  sent : list string;       (* arguments of ws.send() that went out, oldest first *)
  closed : bool;
  handlers : option Connection
}.

(** [Session] of [types.ts], as the handlers populate it. *)
Record Session := mkSession {
  term : ref;
  xterm : ref;
  serializeAddon : ref;     (* the addon lives in its terminal's heap cell *)
  terminalData : string;
  temporaryDisposable : option Disposable;
  dataHandler : option Disposable
}.

(** Calls on the Screen Model and on the transports, in program order. *)
Inductive Effect :=
| EWrite (xterm : ref) (data : string)
| ESend (ws : ref) (data : string).

Record Server := mkServer {
  sessions : gmap Z Session;
  ptys : list Pty;
  xterms : list Terminal;
  sockets : list Socket;
  next_listener : nat;
  trace : list Effect
}.

Definition init : Server := mkServer ∅ [] [] [] 0%nat [].

(** How a callback ends: it runs to completion (an HTTP handler may have
    sent a body), or an exception leaves it. *)
Inductive Outcome :=
| Completed (body : option string)
| Threw (error : string).

(** What the environment can do to the server. *)
Inductive Event :=
| PostTerminals (cols rows : option string) (spawned : option Z)
    (* query arguments that are not strings are [None]; [spawned] is the pid
       of the process pty.spawn created, [None] when spawn throws *)
| PostSize (pid cols rows : string)
    (* the route parameter and the query arguments, as the strings parseInt
       coerces them to *)
| WsConnect (segment : string)
    (* an upgrade on /terminals/<segment>: lines 97-112 hand the handler a
       new socket and parseInt(segment, 10) *)
| WsMessage (ws : ref) (msg : string)
| WsClose (ws : ref)
| PostTerminate (pid : string)
| PtyData (term : ref) (data : string)
| PtyExit (term : ref).

(** ** Field updates *)

Definition set_sessions (f : gmap Z Session → gmap Z Session) (s : Server) : Server :=
  mkServer (f (sessions s)) (ptys s) (xterms s) (sockets s) (next_listener s) (trace s).
Definition set_ptys (f : list Pty → list Pty) (s : Server) : Server :=
  mkServer (sessions s) (f (ptys s)) (xterms s) (sockets s) (next_listener s) (trace s).
Definition set_xterms (f : list Terminal → list Terminal) (s : Server) : Server :=
  mkServer (sessions s) (ptys s) (f (xterms s)) (sockets s) (next_listener s) (trace s).
Definition set_sockets (f : list Socket → list Socket) (s : Server) : Server :=
  mkServer (sessions s) (ptys s) (xterms s) (f (sockets s)) (next_listener s) (trace s).
Definition set_next_listener (n : nat) (s : Server) : Server :=
  mkServer (sessions s) (ptys s) (xterms s) (sockets s) n (trace s).
Definition log (e : Effect) (s : Server) : Server :=
  mkServer (sessions s) (ptys s) (xterms s) (sockets s) (next_listener s) (trace s ++ [e]).

Definition update_session (p : Z) (f : Session → Session) : Server → Server :=
  set_sessions (alter f p).
Definition update_pty (t : ref) (f : Pty → Pty) : Server → Server :=
  set_ptys (alter f t).
Definition update_xterm (x : ref) (f : Terminal → Terminal) : Server → Server :=
  set_xterms (alter f x).
Definition update_socket (w : ref) (f : Socket → Socket) : Server → Server :=
  set_sockets (alter f w).

Definition with_onData (f : list (nat * DataListener) → list (nat * DataListener)) (p : Pty) : Pty :=
  mkPty (pid p) (pty_cols p) (pty_rows p) (f (onData p)) (onExit p) (kills p) (input p) (exited p).
Definition with_onExit (l : ExitListener) (p : Pty) : Pty :=
  mkPty (pid p) (pty_cols p) (pty_rows p) (onData p) (onExit p ++ [l]) (kills p) (input p) (exited p).
Definition with_kill (p : Pty) : Pty :=
  mkPty (pid p) (pty_cols p) (pty_rows p) (onData p) (onExit p) (S (kills p)) (input p) (exited p).
Definition with_input (msg : string) (p : Pty) : Pty :=
  mkPty (pid p) (pty_cols p) (pty_rows p) (onData p) (onExit p) (kills p) (input p ++ [msg]) (exited p).
Definition with_exited (p : Pty) : Pty :=
  mkPty (pid p) (pty_cols p) (pty_rows p) (onData p) (onExit p) (kills p) (input p) true.
Definition with_pty_size (c r : JS.Num) (p : Pty) : Pty :=
  mkPty (pid p) c r (onData p) (onExit p) (kills p) (input p) (exited p).

Definition with_written (data : string) (x : Terminal) : Terminal :=
  mkTerminal (cols x) (rows x) (written x ++ [data]) (disposals x) (addon_disposals x).
Definition with_size (c r : JS.Num) (x : Terminal) : Terminal :=
  mkTerminal c r (written x) (disposals x) (addon_disposals x).
Definition with_disposal (x : Terminal) : Terminal :=
  mkTerminal (cols x) (rows x) (written x) (S (disposals x)) (addon_disposals x).
Definition with_addon_disposal (x : Terminal) : Terminal :=
  mkTerminal (cols x) (rows x) (written x) (disposals x) (S (addon_disposals x)).

Definition with_sent (data : string) (w : Socket) : Socket :=
  mkSocket (sent w ++ [data]) (closed w) (handlers w).
Definition with_closed (w : Socket) : Socket :=
  mkSocket (sent w) true (handlers w).
Definition with_handlers (c : Connection) (w : Socket) : Socket :=
  mkSocket (sent w) (closed w) (Some c).

Definition with_terminalData (d : string) (x : Session) : Session :=
  mkSession (term x) (xterm x) (serializeAddon x) d (temporaryDisposable x) (dataHandler x).
Definition with_temporaryDisposable (d : option Disposable) (x : Session) : Session :=
  mkSession (term x) (xterm x) (serializeAddon x) (terminalData x) d (dataHandler x).
Definition with_dataHandler (d : option Disposable) (x : Session) : Session :=
  mkSession (term x) (xterm x) (serializeAddon x) (terminalData x) (temporaryDisposable x) d.

(** ** Calls on the collaborators *)

(** [sessions[pid]] for a [pid] that came out of [parseInt]: the keys of the
    table are pids of spawned processes, so [NaN] names no entry.  The key
    is returned with the entry. *)
Definition lookup_session (pid : JS.Num) (s : Server) : option (Z * Session) :=
  p ← pid; (p,.) <$> sessions s !! p.

(** [term.onData(l)]: appends the listener and returns its disposable. *)
Definition term_onData (t : ref) (l : DataListener) (s : Server) : Disposable * Server :=
  let id := next_listener s in
  ((t, id), set_next_listener (S id) (update_pty t (with_onData (.++ [(id, l)])) s)).

(** [d.dispose()]: removes the registration from its emitter. *)
Definition dispose (d : Disposable) : Server → Server :=
  update_pty d.1 (with_onData (filter (λ r, r.1 ≠ d.2))).

Definition xterm_write (x : ref) (data : string) (s : Server) : Server :=
  log (EWrite x data) (update_xterm x (with_written data) s).

(** [ws.send(data)]: nothing goes out on a socket that is no longer open
    (inside the fan-out listener the exception is caught and ignored). *)
Definition ws_send (w : ref) (data : string) (s : Server) : Server :=
  match sockets s !! w with
  | Some sock =>
      if closed sock then s
      else log (ESend w data) (update_socket w (with_sent data) s)
  | None => s
  end.

(** ** The handlers *)

Section Handlers.

(** The external capabilities the handlers call without deciding their
    results. [serialize] is [serializeAddon.serialize()], a function of
    the terminal the addon was loaded into at creation. [to_text] is the
    string coercion of a chunk in [terminalData += data] (the identity on
    text chunks, a decoding of binary ones). [pty_resizable] and
    [xterm_resizable] tell whether [resize] accepts the dimensions or
    throws. *)
Variable serialize : Terminal → string.
Variable to_text : string → string.
Variable pty_resizable xterm_resizable : JS.Num → JS.Num → bool.

(** [serialize()] through the addon in heap cell [x]. A closure only holds
    references to allocated objects, so the lookup succeeds whenever a
    handler performs it ([reachable_session_serializer] and
    [reachable_socket_serializer] below). *)
Definition serialize_at (x : ref) (s : Server) : string :=
  from_option serialize EmptyString (xterms s !! x).

(** [POST /terminals], lines 31-81. *)
Definition post_terminals (cols rows : option string) (spawned : option Z)
    (s : Server) : Outcome * Server :=
  match cols, rows with
  | Some cols, Some rows =>
      let colsInt := JS.parseInt cols in
      let rowsInt := JS.parseInt rows in
      match spawned with
      | Some p =>
          let t := length (ptys s) in
          let x := length (xterms s) in
          let s := set_ptys (.++ [mkPty p (Some (JS.or_default colsInt 80))
                                    (Some (JS.or_default rowsInt 24))
                                    [] [] 0 [] false]) s in
          let s := set_xterms (.++ [mkTerminal (Some (JS.or_default colsInt 80))
                                      (Some (JS.or_default rowsInt 24))
                                      [] 0 0]) s in
          let s := set_sessions <[p := mkSession t x x EmptyString None None]> s in
          let d := term_onData t (BufferData p) s in
          let s := update_session p (with_temporaryDisposable (Some d.1)) d.2 in
          (Completed (Some (pretty p)), s)
      | None => (Threw "pty.spawn", s)
      end
  | _, _ => (Threw "Unexpected query args", s)
  end.

(** [POST /terminals/:pid/size], lines 83-95. *)
Definition post_size (pid cols rows : string) (s : Server) : Outcome * Server :=
  let colsInt := JS.parseInt cols in
  let rowsInt := JS.parseInt rows in
  match lookup_session (JS.parseInt pid) s with
  | Some (_, session) =>
      if pty_resizable colsInt rowsInt then
        let s := update_pty (term session) (with_pty_size colsInt rowsInt) s in
        if xterm_resizable colsInt rowsInt then
          (Completed None, update_xterm (xterm session) (with_size colsInt rowsInt) s)
        else (Threw "xterm.resize", s)
      else (Threw "term.resize", s)
  | None => (Threw "TypeError: sessions[pid] is undefined", s)
  end.

(** The [connection] handler, lines 113-156.  Nothing between line 116
    and line 126 assigns [terminalData], so the destructured copy and
    [sessions[pid].terminalData] are the same string. *)
Definition ws_connect (segment : string) (s : Server) : Outcome * Server :=
  let w := length (sockets s) in
  let s := set_sockets (.++ [mkSocket [] false None]) s in
  match lookup_session (JS.parseInt segment) s with
  | Some (p, session) =>
      let s :=
        match temporaryDisposable session with
        | Some d =>
            if JS.truthy (terminalData session) then
              let s := dispose d s in
              let s := update_session p (with_temporaryDisposable None) s in
              xterm_write (xterm session) (terminalData session) s
            else s
        | None => s
        end in
      let s := ws_send w (terminalData session) s in
      let d := term_onData (term session) (FanOut (xterm session) w) s in
      let s := update_session p (with_dataHandler (Some d.1)) d.2 in
      let s := update_socket w
                 (with_handlers (mkConnection p (term session) (serializeAddon session))) s in
      (Completed None, s)
  | None => (Threw "TypeError: sessions[pid] is undefined", s)
  end.

(** The [message] callback, lines 141-143; a closed socket delivers no
    message. *)
Definition ws_message (w : ref) (msg : string) (s : Server) : Outcome * Server :=
  match sockets s !! w with
  | Some sock =>
      match closed sock, handlers sock with
      | false, Some c => (Completed None, update_pty (conn_term c) (with_input msg) s)
      | _, _ => (Completed None, s)
      end
  | None => (Completed None, s)
  end.

(** The [close] callback, lines 145-154; a socket closes once. *)
Definition on_close (c : Connection) (s : Server) : Server :=
  match sessions s !! conn_pid c with
  | Some session =>
      match dataHandler session with
      | Some d =>
          let s := dispose d s in
          let s := update_session (conn_pid c) (with_dataHandler None) s in
          update_session (conn_pid c)
            (with_terminalData (serialize_at (conn_addon c) s)) s
      | None => s
      end
  | None => s
  end.

Definition ws_close (w : ref) (s : Server) : Outcome * Server :=
  match sockets s !! w with
  | Some sock =>
      if closed sock then (Completed None, s)
      else
        let s := update_socket w with_closed s in
        match handlers sock with
        | Some c => (Completed None, on_close c s)
        | None => (Completed None, s)
        end
  | None => (Completed None, s)
  end.

(** [POST /terminals/:pid/terminate], lines 158-194.  [term] is an
    object, so the test of line 171 always passes. *)
Definition post_terminate (pid : string) (s : Server) : Outcome * Server :=
  match lookup_session (JS.parseInt pid) s with
  | Some (p, session) =>
      let s :=
        match dataHandler session with
        | Some d =>
            let s := dispose d s in
            let s := update_session p (with_dataHandler None) s in
            if JS.truthy (terminalData session) then
              let s := update_xterm (serializeAddon session) with_addon_disposal s in
              update_session p
                (with_terminalData (serialize_at (serializeAddon session) s)) s
            else s
        | None => s
        end in
      let s := update_pty (term session)
                 (with_onExit (mkExitListener (xterm session) p)) s in
      let s := update_pty (term session) with_kill s in
      (Completed None, s)
  | None => (Completed None, s)
  end.

(** One listener of the pty's data event.  The buffering listener reads
    [sessions[term.pid]] when it fires and throws when the entry is gone. *)
Definition run_data_listener (data : string) (l : DataListener)
    (s : Server) : option Server :=
  match l with
  | BufferData p =>
      match sessions s !! p with
      | Some session =>
          Some (update_session p
                  (with_terminalData (terminalData session +:+ to_text data)) s)
      | None => None
      end
  | FanOut x w => Some (ws_send w data (xterm_write x data s))
  end.

(** The emitter calls its listeners in registration order; an exception
    leaves the remaining ones uncalled. *)
Fixpoint fire_data (data : string) (ls : list (nat * DataListener))
    (s : Server) : Outcome * Server :=
  match ls with
  | [] => (Completed None, s)
  | (_, l) :: ls =>
      match run_data_listener data l s with
      | Some s => fire_data data ls s
      | None => (Threw "TypeError: sessions[term.pid] is undefined", s)
      end
  end.

(** The process wrote [data]: a process that has exited writes nothing. *)
Definition pty_data (t : ref) (data : string) (s : Server) : Outcome * Server :=
  match ptys s !! t with
  | Some p => if exited p then (Completed None, s) else fire_data data (onData p) s
  | None => (Completed None, s)
  end.

Definition run_exit_listener (s : Server) (l : ExitListener) : Server :=
  set_sessions (delete (exit_pid l)) (update_xterm (exit_xterm l) with_disposal s).

(** The process exited (once): the exit listeners run in registration
    order. *)
Definition pty_exit (t : ref) (s : Server) : Outcome * Server :=
  match ptys s !! t with
  | Some p =>
      if exited p then (Completed None, s)
      else (Completed None, foldl run_exit_listener (update_pty t with_exited s) (onExit p))
  | None => (Completed None, s)
  end.

Definition step (s : Server) (e : Event) : Outcome * Server :=
  match e with
  | PostTerminals cols rows spawned => post_terminals cols rows spawned s
  | PostSize pid cols rows => post_size pid cols rows s
  | WsConnect segment => ws_connect segment s
  | WsMessage w msg => ws_message w msg s
  | WsClose w => ws_close w s
  | PostTerminate pid => post_terminate pid s
  | PtyData t data => pty_data t data s
  | PtyExit t => pty_exit t s
  end.

(** The server after a sequence of events; an exception ends the handler
    it leaves, not the sequence. *)
Definition run (es : list Event) (s : Server) : Server :=
  foldl (λ s e, (step s e).2) s es.

(** The process of pty [t] writes the chunks [ds], one data event each. *)
Definition emit (t : ref) (ds : list string) : Server → Server :=
  run (PtyData t <$> ds).

(** The states the server can be in. *)
Inductive reachable : Server → Prop :=
| reachable_init : reachable init
| reachable_step s e : reachable s → reachable (step s e).2.

End Handlers.

(** ** A sample instantiation, to run the handlers on concrete inputs *)

Module Sample.

(** A stand-in serializer: the writes so far behind a marker, so that a
    snapshot and the raw bytes it summarises can be told apart. *)
Definition serialize (x : Terminal) : string :=
  String.append "snapshot:" (String.concat EmptyString (written x)).

(** node-pty and xterm reject dimensions that are not positive numbers. *)
Definition resizable (c r : JS.Num) : bool :=
  match c, r with
  | Some c, Some r => (0 <? c) && (0 <? r)
  | _, _ => false
  end.

Definition step : Server → Event → Outcome * Server :=
  step serialize id resizable resizable.
Definition run : list Event → Server → Server :=
  run serialize id resizable resizable.

End Sample.

(** ** Concrete runs *)

Module Scenario.

Import Sample.

Definition create : Event := PostTerminals (Some "80") (Some "24") (Some 7).

(** A session whose process wrote before anyone attached. *)
Definition unattached : Server := run [create; PtyData 0%nat "hello"] init.

(** The same session with one transport attached. *)
Definition attached : Server := run [WsConnect "7"] unattached.

(** The session right after creation, and its process and terminal. *)
Definition created : Server := run [create] init.

Definition fresh_session : Session :=
  mkSession 0%nat 0%nat 0%nat EmptyString (Some (0%nat, 0%nat)) None.

Definition session7 : Session :=
  mkSession 0%nat 0%nat 0%nat "hello" (Some (0%nat, 0%nat)) None.

Definition session7_attached : Session :=
  mkSession 0%nat 0%nat 0%nat "hello" None (Some (0%nat, 1%nat)).

Definition pty7 : Pty :=
  mkPty 7 (Some 80) (Some 24) [(0%nat, BufferData 7)] [] 0 [] false.

Definition pty7_attached : Pty :=
  mkPty 7 (Some 80) (Some 24) [(1%nat, FanOut 0%nat 0%nat)] [] 0 [] false.

Definition xterm7 : Terminal := mkTerminal (Some 80) (Some 24) [] 0 0.

Definition xterm7_attached : Terminal :=
  mkTerminal (Some 80) (Some 24) ["hello"] 0 0.

Definition socket0 : Socket :=
  mkSocket ["hello"] false (Some (mkConnection 7 0%nat 0%nat)).

End Scenario.

(** ** Vocabulary of the statements *)

(** A query argument parses to a nonzero integer. *)
Definition parses_nonzero (str : string) : Prop :=
  ∃ n, JS.parseInt str = Some n ∧ n ≠ 0.

(** The session buffers process output: its buffering subscription is
    installed. *)
Definition buffering (x : Session) : Prop := is_Some (temporaryDisposable x).

(** The session forwards process output to a transport: its fan-out
    subscription is installed. *)
Definition forwarding (x : Session) : Prop := is_Some (dataHandler x).

(** The chunks [ds] as the buffering listener accumulates them. *)
Definition raw_output (to_text : string → string) (ds : list string) : string :=
  foldr (λ d acc, to_text d +:+ acc) EmptyString ds.

(** Whether the connection handler takes the branch of lines 120-124. *)
Definition replays (x : Session) : bool :=
  match temporaryDisposable x with
  | Some _ => JS.truthy (terminalData x)
  | None => false
  end.

(** What one data event may add to the trace when the process writes
    [data]: for each fan-out listener among [ls] that runs, a write to its
    terminal, directly followed by the send to its socket when that goes
    out. *)
Inductive fanout_blocks (data : string) (ls : list (nat * DataListener)) :
    list Effect → Prop :=
| blocks_nil : fanout_blocks data ls []
| blocks_write id x w es :
    (id, FanOut x w) ∈ ls → fanout_blocks data ls es →
    fanout_blocks data ls (EWrite x data :: es)
| blocks_write_send id x w es :
    (id, FanOut x w) ∈ ls → fanout_blocks data ls es →
    fanout_blocks data ls (EWrite x data :: ESend w data :: es).

(** What the heap of a running server always satisfies: a session is filed
    under the pid of its own process; a buffering listener sits on the pty
    whose pid it names and is the one its session holds the disposable of;
    a fan-out listener forwards to an allocated socket; the serialize addon
    of a session is the one loaded into its terminal, which is allocated,
    as is the one a socket's close callback holds. *)
Record consistent (s : Server) : Prop := mkConsistent {
  session_of_pid : ∀ p x,
    sessions s !! p = Some x →
    ∃ pty, ptys s !! term x = Some pty ∧ pid pty = p;
  buffering_listener : ∀ t pty id q,
    ptys s !! t = Some pty → (id, BufferData q) ∈ onData pty →
    q = pid pty ∧
    ∀ x, sessions s !! q = Some x → term x = t →
         temporaryDisposable x = Some (t, id);
  fanout_listener : ∀ t pty id x w,
    ptys s !! t = Some pty → (id, FanOut x w) ∈ onData pty →
    (w < length (sockets s))%nat;
  session_terminal : ∀ p x,
    sessions s !! p = Some x →
    serializeAddon x = xterm x ∧ (xterm x < length (xterms s))%nat;
  socket_terminal : ∀ w k c,
    sockets s !! w = Some k → handlers k = Some c →
    (conn_addon c < length (xterms s))%nat
}.

(** ** The upgrade route *)

(** [s.split(sep)] for a separator of one character: the pieces between
    the separators, of which there is always at least one. *)
Fixpoint split (sep : ascii) (s : string) : list string :=
  match s with
  | EmptyString => [EmptyString]
  | String c r =>
      if Ascii.eqb c sep then EmptyString :: split sep r
      else match split sep r with
           | piece :: pieces => String c piece :: pieces
           | [] => [String c EmptyString]
           end
  end.

(** [pathname.split("/").pop() || ""], line 104. *)
Definition last_segment (pathname : string) : string :=
  default EmptyString (last (split "/" pathname)).

(** The [upgrade] handler, lines 97-112, on the pathname of the request:
    under [/terminals/] the socket is upgraded and handed to the connection
    handler with the parsed last segment; any other socket is destroyed
    before a WebSocket exists. *)
Definition upgrade (pathname : string) (s : Server) : Outcome * Server :=
  if String.prefix "/terminals/" pathname
  then ws_connect (last_segment pathname) s
  else (Completed None, s).

(** ** Vocabulary of the further properties *)

(** The string has no ["/"]. *)
Definition no_slash (seg : string) : Prop :=
  Forall (λ c, c ≠ "/"%char) (list_ascii_of_string seg).

(** [x'] is the session [x] later on: the same process, terminal and addon;
    the buffering subscription is the same or gone. *)
Definition same_session (x x' : Session) : Prop :=
  term x' = term x ∧ xterm x' = xterm x ∧ serializeAddon x' = serializeAddon x
  ∧ (temporaryDisposable x' = temporaryDisposable x ∨ temporaryDisposable x' = None).

(** From [s] to [s'] no session was filed, removed or replaced. *)
Definition registry_stable (s s' : Server) : Prop :=
  ∀ p, match sessions s !! p with
       | Some x => ∃ x', sessions s' !! p = Some x' ∧ same_session x x'
       | None => sessions s' !! p = None
       end.

(** From [s] to [s'] every process kept its pid and was sent no kill. *)
Definition processes_spared (s s' : Server) : Prop :=
  ∀ t pty, ptys s !! t = Some pty →
    ∃ pty', ptys s' !! t = Some pty' ∧ pid pty' = pid pty ∧ kills pty' = kills pty.

(** The events that file or remove registry entries. *)
Definition files_or_removes (e : Event) : bool :=
  match e with
  | PostTerminals _ _ _ | PtyExit _ => true
  | _ => false
  end.

Definition is_terminate (e : Event) : bool :=
  match e with
  | PostTerminate _ => true
  | _ => false
  end.

(** The HTTP routes that act on sessions. *)
Definition is_http (e : Event) : bool :=
  match e with
  | PostTerminals _ _ _ | PostSize _ _ _ | PostTerminate _ => true
  | _ => false
  end.

(** ** Further concrete runs *)

Module Teardown.

(** The fresh session of [Scenario] after a terminate request. *)
Definition terminating : Server := Sample.run [PostTerminate "7"] Scenario.created.

Definition pty7 : Pty :=
  mkPty 7 (Some 80) (Some 24) [(0%nat, BufferData 7)] [mkExitListener 0%nat 7] 1 [] false.

(** The attached session of [Scenario], terminated, after the exit of its
    process. *)
Definition torn_down : Server :=
  Sample.run [PostTerminate "7"; PtyExit 0%nat] Scenario.attached.

End Teardown.

(** * Properties *)

(** Unfolds the operations on the heap, and nothing else. *)
Ltac heap_simpl :=
  cbn [sessions ptys xterms sockets next_listener trace
       set_sessions set_ptys set_xterms set_sockets set_next_listener log
       update_session update_pty update_xterm update_socket
       dispose xterm_write term_onData fire_data run_data_listener fst snd].


(** ** Lookups in the heap *)

Lemma lookup_snoc {A} (l : list A) (x : A) : (l ++ [x]) !! length l = Some x.
Proof. induction l; simpl; auto. Qed.

Lemma alter_snoc {A} (f : A → A) (l : list A) (x : A) :
  alter f (length l) (l ++ [x]) = l ++ [f x].
Proof.
  replace (length l) with (length l + 0)%nat by lia.
  by rewrite alter_app_r.
Qed.

Lemma list_lookup_alter_Some {A} (f : A → A) (l : list A) i j y :
  alter f i l !! j = Some y →
  ∃ x, l !! j = Some x ∧ (y = x ∨ (i = j ∧ y = f x)).
Proof.
  rewrite list_lookup_alter. case_decide; subst.
  - destruct (l !! j) as [x|]; simpl; [|done]. intros [= <-]. eauto.
  - eauto.
Qed.

Lemma map_lookup_alter_Some {A} (f : A → A) (m : gmap Z A) i j y :
  alter f i m !! j = Some y →
  ∃ x, m !! j = Some x ∧ (y = x ∨ (i = j ∧ y = f x)).
Proof.
  rewrite lookup_alter. case_decide; subst.
  - destruct (m !! j) as [x|]; simpl; [|done]. intros [= <-]. eauto.
  - eauto.
Qed.

(** ** Consistency of the heap *)

(** Consistency carries over to a state whose sessions, ptys, terminals
    and sockets come from those of a consistent one without new sessions,
    new buffering listeners, lost sockets or lost terminals. *)
Lemma consistent_frame s s' :
  consistent s →
  (∀ p x', sessions s' !! p = Some x' →
     ∃ x, sessions s !! p = Some x ∧ term x' = term x ∧
          xterm x' = xterm x ∧ serializeAddon x' = serializeAddon x ∧
          (temporaryDisposable x' = temporaryDisposable x ∨
           ∀ pty' id q, ptys s' !! term x' = Some pty' →
                        (id, BufferData q) ∉ onData pty')) →
  (∀ t pty, ptys s !! t = Some pty →
     ∃ pty', ptys s' !! t = Some pty' ∧ pid pty' = pid pty) →
  (∀ t pty', ptys s' !! t = Some pty' →
     ∃ pty, ptys s !! t = Some pty ∧ pid pty' = pid pty ∧
       (∀ id q, (id, BufferData q) ∈ onData pty' → (id, BufferData q) ∈ onData pty) ∧
       (∀ id x w, (id, FanOut x w) ∈ onData pty' →
          (id, FanOut x w) ∈ onData pty ∨ (w < length (sockets s'))%nat)) →
  (length (sockets s) ≤ length (sockets s'))%nat →
  (∀ w k' c, sockets s' !! w = Some k' → handlers k' = Some c →
     (∃ k, sockets s !! w = Some k ∧ handlers k = Some c) ∨
     (conn_addon c < length (xterms s'))%nat) →
  (length (xterms s) ≤ length (xterms s'))%nat →
  consistent s'.
Proof.
  intros [Ha Hb Hc Hd He] Hs Hfw Hbw Hlen Hsock Hxlen. split.
  - intros p x' Hx'. destruct (Hs _ _ Hx') as (x & Hx & Ht & _).
    destruct (Ha _ _ Hx) as (pty & Hp & Hpid).
    destruct (Hfw _ _ Hp) as (pty' & Hp' & Hpid').
    exists pty'. rewrite Ht. split; [done | by rewrite Hpid'].
  - intros t pty' id q Hp' Hin.
    destruct (Hbw _ _ Hp') as (pty & Hp & Hpid & Hbuf & _).
    destruct (Hb _ _ _ _ Hp (Hbuf _ _ Hin)) as [-> Hx].
    split; [done|]. intros x' Hx' Ht.
    destruct (Hs _ _ Hx') as (x & Hx0 & Hterm & _ & _ & [Htmp|Hno]).
    + rewrite Htmp. apply Hx; [done | by rewrite <- Hterm].
    + exfalso. rewrite Ht in Hno. by apply (Hno _ _ _ Hp' Hin).
  - intros t pty' id x w Hp' Hin.
    destruct (Hbw _ _ Hp') as (pty & Hp & _ & _ & Hfan).
    destruct (Hfan _ _ _ Hin) as [Hold|]; [|done].
    specialize (Hc _ _ _ _ _ Hp Hold). lia.
  - intros p x' Hx'. destruct (Hs _ _ Hx') as (x & Hx & _ & Hxt & Hadd & _).
    destruct (Hd _ _ Hx). rewrite Hxt, Hadd. split; [done|lia].
  - intros w k' c Hk' Hc'. destruct (Hsock _ _ _ Hk' Hc') as [(k & Hk & Hkc)|]; [|done].
    specialize (He _ _ _ Hk Hkc). lia.
Qed.

(** In a state with the same sockets and terminals, the sockets hold
    the callbacks they held. *)
Lemma same_sockets (s s' : Server) :
  sockets s' = sockets s →
  ∀ w k' c, sockets s' !! w = Some k' → handlers k' = Some c →
    (∃ k, sockets s !! w = Some k ∧ handlers k = Some c) ∨
    (conn_addon c < length (xterms s'))%nat.
Proof. intros -> w k' c Hk Hc. left. eauto. Qed.

Lemma consistent_update_session s p f :
  (∀ x, term (f x) = term x) →
  (∀ x, xterm (f x) = xterm x) →
  (∀ x, serializeAddon (f x) = serializeAddon x) →
  (∀ x, temporaryDisposable (f x) = temporaryDisposable x) →
  consistent s → consistent (update_session p f s).
Proof.
  intros Hterm Hxterm Haddon Htmp Hs.
  apply (consistent_frame s); simpl; eauto 10 using same_sockets.
  intros q x' Hx'. apply map_lookup_alter_Some in Hx' as (x & Hx & [->|[_ ->]]); eauto 12.
Qed.

Lemma consistent_update_pty s t f :
  (∀ x, pid (f x) = pid x) →
  (∀ x id l, (id, l) ∈ onData (f x) → (id, l) ∈ onData x) →
  consistent s → consistent (update_pty t f s).
Proof.
  intros Hpid Hdata Hs. apply (consistent_frame s); simpl; eauto 12 using same_sockets.
  - intros t' pty Hp. rewrite list_lookup_alter. case_decide; subst.
    + rewrite Hp. simpl. eauto.
    + eauto.
  - intros t' pty' Hp'.
    apply list_lookup_alter_Some in Hp' as (pty & Hp & [->|[_ ->]]); eauto 10.
Qed.

Lemma consistent_dispose s d : consistent s → consistent (dispose d s).
Proof.
  apply consistent_update_pty; [done|].
  intros x id l. simpl. rewrite list_elem_of_filter. tauto.
Qed.

Lemma consistent_update_xterm s x f : consistent s → consistent (update_xterm x f s).
Proof.
  intros Hs. apply (consistent_frame s); simpl; eauto 12 using same_sockets.
  by rewrite length_alter.
Qed.

Lemma consistent_log s e : consistent s → consistent (log e s).
Proof. intros Hs. apply (consistent_frame s); simpl; eauto 12 using same_sockets. Qed.

Lemma consistent_set_next_listener s n : consistent s → consistent (set_next_listener n s).
Proof. intros Hs. apply (consistent_frame s); simpl; eauto 12 using same_sockets. Qed.

Lemma consistent_update_socket s w f :
  (∀ k, handlers (f k) = handlers k) →
  consistent s → consistent (update_socket w f s).
Proof.
  intros Hf Hs. apply (consistent_frame s); simpl; eauto 12.
  - by rewrite length_alter.
  - intros w' k' c Hk' Hc. left.
    apply list_lookup_alter_Some in Hk' as (k & Hk & [->|[_ ->]]); [eauto|].
    rewrite Hf in Hc. eauto.
Qed.

Lemma consistent_set_handlers s w c :
  (conn_addon c < length (xterms s))%nat →
  consistent s → consistent (update_socket w (with_handlers c) s).
Proof.
  intros Hc Hs. apply (consistent_frame s); simpl; eauto 12.
  - by rewrite length_alter.
  - intros w' k' c' Hk' Hc'.
    apply list_lookup_alter_Some in Hk' as (k & Hk & [->|[_ ->]]); [eauto|].
    simpl in Hc'. injection Hc' as <-. by right.
Qed.

Lemma consistent_new_socket s sock :
  handlers sock = None → consistent s → consistent (set_sockets (.++ [sock]) s).
Proof.
  intros Hnone Hs. apply (consistent_frame s); simpl; eauto 12.
  - rewrite length_app. lia.
  - intros w k' c Hk' Hc. left.
    destruct (decide (w < length (sockets s))%nat) as [Hw|Hw].
    + rewrite lookup_app_l in Hk' by done. eauto.
    + assert (w = length (sockets s)) as ->.
      { apply lookup_lt_Some in Hk'. rewrite length_app in Hk'. simpl in Hk'. lia. }
      rewrite lookup_snoc in Hk'. injection Hk' as <-. congruence.
Qed.

Lemma consistent_delete_session s p : consistent s → consistent (set_sessions (delete p) s).
Proof.
  intros Hs. apply (consistent_frame s); simpl; eauto 12 using same_sockets.
  intros q x'. rewrite lookup_delete_Some. intros [_ Hx]. eauto 12.
Qed.

Lemma consistent_xterm_write s x d : consistent s → consistent (xterm_write x d s).
Proof. intros. by apply consistent_log, consistent_update_xterm. Qed.

Lemma consistent_ws_send s w d : consistent s → consistent (ws_send w d s).
Proof.
  intros. unfold ws_send. destruct (sockets s !! w) as [sock|]; [|done].
  destruct (closed sock); [done|]. by apply consistent_log, consistent_update_socket.
Qed.

Lemma consistent_fanout s t x w :
  (w < length (sockets s))%nat →
  consistent s → consistent (term_onData t (FanOut x w) s).2.
Proof.
  intros Hw Hs. apply consistent_set_next_listener.
  apply (consistent_frame s); simpl; eauto 12 using same_sockets.
  - intros t' pty Hp. rewrite list_lookup_alter. case_decide; subst.
    + rewrite Hp. simpl. eauto.
    + eauto.
  - intros t' pty' Hp'.
    apply list_lookup_alter_Some in Hp' as (pty & Hp & [->|[_ ->]]); eauto 10.
    exists pty. simpl. repeat split; [done| |].
    + intros id q. rewrite elem_of_app, list_elem_of_singleton. intros [?|[=]]. done.
    + intros id x' w'. rewrite elem_of_app, list_elem_of_singleton.
      intros [?|[= -> -> ->]]; auto.
Qed.

Lemma consistent_stop_buffering s p x d :
  sessions s !! p = Some x → temporaryDisposable x = Some d →
  consistent s →
  consistent (update_session p (with_temporaryDisposable None) (dispose d s)).
Proof.
  intros Hx Hd Hs. apply (consistent_frame s); simpl; eauto using same_sockets.
  - intros q x'. intros Hx'.
    apply map_lookup_alter_Some in Hx' as (x0 & Hx0 & [->|[<- ->]]); [eauto 12|].
    exists x0. do 4 (split; [done|]). right. simpl.
    assert (x0 = x) as -> by congruence. simpl.
    intros pty' id q Hp' Hin.
    pose proof Hp' as Hp''.
    apply list_lookup_alter_Some in Hp'' as (pty & Hp & Hcase).
    assert ((id, BufferData q) ∈ onData pty) as Hold.
    { destruct Hcase as [->|[_ ->]]; [done|].
      simpl in Hin. apply list_elem_of_filter in Hin. tauto. }
    destruct (buffering_listener s Hs _ _ _ _ Hp Hold) as [-> Htmp].
    destruct (session_of_pid s Hs _ _ Hx) as (pty0 & Hp0 & Hpid0).
    pose proof (eq_trans (eq_sym Hp0) Hp) as [= ->].
    rewrite Hpid0 in Htmp. specialize (Htmp _ Hx eq_refl).
    rewrite Hd in Htmp. injection Htmp as ->.
    simpl in Hp'. rewrite list_lookup_alter_eq, Hp in Hp'.
    injection Hp' as <-. simpl in Hin.
    apply list_elem_of_filter in Hin. simpl in Hin. tauto.
  - intros t pty Hp. rewrite list_lookup_alter. case_decide; subst.
    + rewrite Hp. simpl. eauto.
    + eauto.
  - intros t pty' Hp'.
    apply list_lookup_alter_Some in Hp' as (pty & Hp & [->|[_ ->]]); eauto 10.
    exists pty. simpl. repeat split; [done| |].
    + intros id q. rewrite list_elem_of_filter. tauto.
    + intros id x' w'. rewrite list_elem_of_filter. tauto.
Qed.

Lemma lookup_session_Some pid s p session :
  lookup_session pid s = Some (p, session) ↔ pid = Some p ∧ sessions s !! p = Some session.
Proof.
  unfold lookup_session. destruct pid as [q|]; simpl.
  - destruct (sessions s !! q) eqn:E; simpl; split.
    + intros [= <- <-]. auto.
    + intros [[= <-] Hs]. congruence.
    + discriminate.
    + intros [[= <-] Hs]. congruence.
  - split; [discriminate | intros [? _]; discriminate].
Qed.

Lemma lookup_session_None pid s :
  lookup_session pid s = None ↔ ∀ p, pid = Some p → sessions s !! p = None.
Proof.
  unfold lookup_session. destruct pid as [q|]; simpl.
  - destruct (sessions s !! q) eqn:E; simpl; split; try done.
    + intros H. specialize (H q eq_refl). congruence.
    + intros _ p [= <-]. done.
  - split; [intros _ p; discriminate | done].
Qed.

Lemma consistent_post_terminals s c r spawned :
  consistent s → consistent (post_terminals c r spawned s).2.
Proof.
  intros Hs. unfold post_terminals.
  destruct c as [c|], r as [r|], spawned as [p|]; try done.
  set (pty0 := mkPty _ _ _ _ _ _ _ _). set (tm0 := mkTerminal _ _ _ _ _).
  assert (∀ t pty, ptys s !! t = Some pty → (t < length (ptys s))%nat) as Hlt
    by (intros; by eapply lookup_lt_Some).
  split; simpl; rewrite ?alter_snoc.
  - intros q y.
    destruct (decide (p = q)) as [<-|Hq];
      [rewrite lookup_alter_eq, lookup_insert_eq
      |rewrite lookup_alter_ne, lookup_insert_ne by done].
    + simpl. intros [= <-]. simpl.
      eexists. split; [apply lookup_snoc|done].
    + intros Hy.
      destruct (session_of_pid s Hs _ _ Hy) as (pty & Hp & Hpid).
      exists pty. split; [|done]. rewrite lookup_app_l; eauto.
  - intros t pty id q Hp Hin.
    destruct (decide (t < length (ptys s))%nat) as [Ht|Ht].
    + rewrite lookup_app_l in Hp by done.
      destruct (buffering_listener s Hs _ _ _ _ Hp Hin) as [-> Htmp].
      split; [done|]. intros y.
      destruct (decide (p = pid pty)) as [<-|Hq];
        [rewrite lookup_alter_eq, lookup_insert_eq
        |rewrite lookup_alter_ne, lookup_insert_ne by done].
      * simpl. intros [= <-]. simpl. lia.
      * auto.
    + assert (t = length (ptys s)) as ->.
      { apply lookup_lt_Some in Hp. rewrite length_app in Hp. simpl in Hp. lia. }
      rewrite lookup_snoc in Hp. injection Hp as <-. simpl in *.
      apply list_elem_of_singleton in Hin. injection Hin as -> ->.
      split; [done|]. intros y. rewrite lookup_alter_eq, lookup_insert_eq.
      simpl. by intros [= <-].
  - intros t pty id x w Hp Hin.
    destruct (decide (t < length (ptys s))%nat) as [Ht|Ht].
    + rewrite lookup_app_l in Hp by done. by eapply (fanout_listener s Hs).
    + assert (t = length (ptys s)) as ->.
      { apply lookup_lt_Some in Hp. rewrite length_app in Hp. simpl in Hp. lia. }
      rewrite lookup_snoc in Hp. injection Hp as <-. simpl in *.
      apply list_elem_of_singleton in Hin. discriminate.
  - intros q y. rewrite length_app. simpl.
    destruct (decide (p = q)) as [<-|Hq];
      [rewrite lookup_alter_eq, lookup_insert_eq
      |rewrite lookup_alter_ne, lookup_insert_ne by done].
    + simpl. intros [= <-]. simpl. split; [done|lia].
    + intros Hy. destruct (session_terminal s Hs _ _ Hy). split; [done|lia].
  - intros w k c' Hk Hc. rewrite length_app.
    pose proof (socket_terminal s Hs _ _ _ Hk Hc). lia.
Qed.

Lemma xterms_ws_send w d s : xterms (ws_send w d s) = xterms s.
Proof.
  unfold ws_send. destruct (sockets s !! w) as [k|]; [|done]. by destruct (closed k).
Qed.

Lemma length_sockets_ws_send w d s :
  length (sockets (ws_send w d s)) = length (sockets s).
Proof.
  unfold ws_send. destruct (sockets s !! w) as [sock|]; [|done].
  destruct (closed sock); [done|]. simpl. apply length_alter.
Qed.

(** ** Every handler keeps the heap consistent *)

Section Preservation.

Variable serialize : Terminal → string.
Variable to_text : string → string.
Variable pty_resizable xterm_resizable : JS.Num → JS.Num → bool.

Lemma consistent_post_size s p c r :
  consistent s → consistent (post_size pty_resizable xterm_resizable p c r s).2.
Proof.
  intros Hs. unfold post_size.
  destruct (lookup_session _ s) as [[q x]|]; [|done].
  destruct (pty_resizable _ _); [|done].
  destruct (xterm_resizable _ _); simpl.
  - by apply consistent_update_xterm, consistent_update_pty.
  - by apply consistent_update_pty.
Qed.

Lemma consistent_ws_connect s seg :
  consistent s → consistent (ws_connect seg s).2.
Proof.
  intros Hs. unfold ws_connect.
  set (s0 := set_sockets _ s).
  assert (consistent s0) as Hs0 by by apply consistent_new_socket.
  destruct (lookup_session _ s0) as [[p x]|] eqn:Hl; [|done].
  apply lookup_session_Some in Hl as [_ Hx].
  cbv zeta. unfold snd at 1.
  destruct (session_terminal s0 Hs0 _ _ Hx) as [Haddon Hxterm].
  apply consistent_set_handlers.
  { simpl. rewrite xterms_ws_send, Haddon.
    destruct (temporaryDisposable x) as [d|]; [|done].
    destruct (JS.truthy _); [|done]. simpl. by rewrite length_alter. }
  apply consistent_update_session; [done..|].
  apply consistent_fanout.
  - rewrite length_sockets_ws_send.
    assert (length (sockets s0) = S (length (sockets s))) as Hlen
      by (simpl; rewrite length_app; simpl; lia).
    destruct (temporaryDisposable x) as [d|]; [|lia].
    destruct (JS.truthy _); simpl in *; lia.
  - apply consistent_ws_send.
    destruct (temporaryDisposable x) as [d|] eqn:Hd; [|done].
    destruct (JS.truthy _); [|done].
    by apply consistent_xterm_write, (consistent_stop_buffering _ _ x).
Qed.

Lemma consistent_ws_message s w msg :
  consistent s → consistent (ws_message w msg s).2.
Proof.
  intros Hs. unfold ws_message.
  destruct (sockets s !! w) as [sock|]; [|done].
  destruct (closed sock), (handlers sock); try done.
  by apply consistent_update_pty.
Qed.

Lemma consistent_on_close s c :
  consistent s → consistent (on_close serialize c s).
Proof.
  intros Hs. unfold on_close.
  destruct (sessions s !! conn_pid c) as [x|]; [|done].
  destruct (dataHandler x) as [d|]; [|done].
  do 2 (apply consistent_update_session; [done..|]).
  by apply consistent_dispose.
Qed.

Lemma consistent_ws_close s w :
  consistent s → consistent (ws_close serialize w s).2.
Proof.
  intros Hs. unfold ws_close.
  destruct (sockets s !! w) as [sock|]; [|done].
  destruct (closed sock); [done|].
  destruct (handlers sock); simpl.
  - by apply consistent_on_close, consistent_update_socket.
  - by apply consistent_update_socket.
Qed.

Lemma consistent_post_terminate s p :
  consistent s → consistent (post_terminate serialize p s).2.
Proof.
  intros Hs. unfold post_terminate.
  destruct (lookup_session _ s) as [[q x]|]; [|done].
  cbv zeta. unfold snd.
  do 2 (apply consistent_update_pty; [done..|]).
  destruct (dataHandler x) as [d|]; [|done].
  destruct (JS.truthy _).
  - apply consistent_update_session; [done..|].
    apply consistent_update_xterm, consistent_update_session; [done..|].
    by apply consistent_dispose.
  - apply consistent_update_session; [done..|]. by apply consistent_dispose.
Qed.

Lemma consistent_run_data_listener s d l s' :
  run_data_listener to_text d l s = Some s' → consistent s → consistent s'.
Proof.
  destruct l as [p|x w]; simpl.
  - destruct (sessions s !! p); [|done]. intros [= <-] Hs.
    by apply consistent_update_session.
  - intros [= <-] Hs. by apply consistent_ws_send, consistent_xterm_write.
Qed.

Lemma consistent_fire_data d ls s :
  consistent s → consistent (fire_data to_text d ls s).2.
Proof.
  revert s. induction ls as [|[id l] ls IH]; intros s Hs; simpl; [done|].
  destruct (run_data_listener to_text d l s) as [s'|] eqn:Hl; [|done].
  eapply IH, consistent_run_data_listener; eauto.
Qed.

Lemma consistent_pty_data s t d :
  consistent s → consistent (pty_data to_text t d s).2.
Proof.
  intros Hs. unfold pty_data.
  destruct (ptys s !! t) as [pty|]; [|done].
  destruct (exited pty); [done|]. by apply consistent_fire_data.
Qed.

Lemma consistent_exit_listeners ls s :
  consistent s → consistent (foldl run_exit_listener s ls).
Proof.
  revert s. induction ls as [|l ls IH]; intros s Hs; simpl; [done|].
  apply IH. by apply consistent_delete_session, consistent_update_xterm.
Qed.

Lemma consistent_pty_exit s t :
  consistent s → consistent (pty_exit t s).2.
Proof.
  intros Hs. unfold pty_exit.
  destruct (ptys s !! t) as [pty|]; [|done].
  destruct (exited pty); [done|]. simpl.
  by apply consistent_exit_listeners, consistent_update_pty.
Qed.

Local Abbreviation handle := (step serialize to_text pty_resizable xterm_resizable).
Local Abbreviation reach := (reachable serialize to_text pty_resizable xterm_resizable).

Lemma consistent_step s e : consistent s → consistent (handle s e).2.
Proof.
  destruct e; simpl;
    auto using consistent_post_terminals, consistent_post_size,
      consistent_ws_connect, consistent_ws_message, consistent_ws_close,
      consistent_post_terminate, consistent_pty_data, consistent_pty_exit.
Qed.

Lemma consistent_init : consistent init.
Proof. split; simpl; intros *; try rewrite lookup_empty; done. Qed.

(** Every state the server reaches is consistent. *)
Lemma reachable_consistent s : reach s → consistent s.
Proof. induction 1; auto using consistent_init, consistent_step. Qed.

(** Hence the serializer terminate calls for a session, and the one the
    close callback of a socket calls, belong to an allocated terminal: the
    lookup of [serialize_at] succeeds. *)
Lemma reachable_session_serializer s p x :
  reach s → sessions s !! p = Some x →
  ∃ tm, xterms s !! xterm x = Some tm
        ∧ serialize_at serialize (serializeAddon x) s = serialize tm.
Proof.
  intros Hs Hx.
  destruct (session_terminal s (reachable_consistent s Hs) _ _ Hx) as [Haddon Hlt].
  destruct (lookup_lt_is_Some_2 _ _ Hlt) as [tm Htm].
  exists tm. unfold serialize_at. by rewrite Haddon, Htm.
Qed.

Lemma reachable_socket_serializer s w k c :
  reach s → sockets s !! w = Some k → handlers k = Some c →
  ∃ tm, xterms s !! conn_addon c = Some tm
        ∧ serialize_at serialize (conn_addon c) s = serialize tm.
Proof.
  intros Hs Hk Hc.
  pose proof (socket_terminal s (reachable_consistent s Hs) _ _ _ Hk Hc) as Hlt.
  destruct (lookup_lt_is_Some_2 _ _ Hlt) as [tm Htm].
  exists tm. unfold serialize_at. by rewrite Htm.
Qed.

End Preservation.

(** ** What the connection handler does to each part of the state *)

Lemma alter_alter_lookup {A} (f g : A → A) (m : gmap Z A) p x :
  m !! p = Some x → alter f p (alter g p m) = <[p := f (g x)]> m.
Proof.
  intros Hx. apply map_eq. intros q. destruct (decide (p = q)) as [<-|Hq].
  - by rewrite !lookup_alter_eq, lookup_insert_eq, Hx.
  - by rewrite !lookup_alter_ne, lookup_insert_ne.
Qed.

Lemma alter_lookup {A} (f : A → A) (m : gmap Z A) p x :
  m !! p = Some x → alter f p m = <[p := f x]> m.
Proof.
  intros Hx. apply map_eq. intros q. destruct (decide (p = q)) as [<-|Hq].
  - by rewrite !lookup_alter_eq, lookup_insert_eq, Hx.
  - by rewrite !lookup_alter_ne, lookup_insert_ne.
Qed.

Lemma ws_connect_attached s seg p x :
  JS.parseInt seg = Some p → sessions s !! p = Some x →
  let w := length (sockets s) in
  ∃ s1,
    ws_connect seg s = (Completed None, s1)
    ∧ sessions s1 =
        <[p := mkSession (term x) (xterm x) (serializeAddon x) (terminalData x)
                 (if replays x then None else temporaryDisposable x)
                 (Some (term x, next_listener s))]> (sessions s)
    ∧ sockets s1 =
        sockets s ++ [mkSocket [terminalData x] false
                        (Some (mkConnection p (term x) (serializeAddon x)))]
    ∧ ptys s1 =
        alter (with_onData (.++ [(next_listener s, FanOut (xterm x) w)])) (term x)
          (match temporaryDisposable x with
           | Some d => if JS.truthy (terminalData x)
                       then alter (with_onData (filter (λ r, r.1 ≠ d.2))) d.1 (ptys s)
                       else ptys s
           | None => ptys s
           end)
    ∧ xterms s1 =
        (if replays x then alter (with_written (terminalData x)) (xterm x) (xterms s)
         else xterms s)
    ∧ trace s1 =
        trace s ++ (if replays x then [EWrite (xterm x) (terminalData x)] else [])
                ++ [ESend w (terminalData x)].
Proof.
  intros Hp Hx w. unfold ws_connect, lookup_session. rewrite Hp. simpl.
  rewrite Hx. simpl. eexists. split; [reflexivity|].
  unfold replays.
  destruct (temporaryDisposable x) as [d|] eqn:Hd;
    [destruct (JS.truthy (terminalData x)) eqn:Hdata|];
    unfold ws_send; simpl; rewrite lookup_snoc; simpl; rewrite !alter_snoc; simpl.
  - rewrite (alter_alter_lookup _ _ _ _ _ Hx). simpl.
    repeat split; try done. by rewrite <- app_assoc.
  - rewrite (alter_lookup _ _ _ _ Hx). unfold with_dataHandler. rewrite Hd.
    repeat split; done.
  - rewrite (alter_lookup _ _ _ _ Hx). unfold with_dataHandler. rewrite Hd.
    repeat split; done.
Qed.

(** ** What a data event does to each part of the state *)

Section DataEvents.

Variable to_text : string → string.

Lemma fire_data_app d l1 l2 s :
  fire_data to_text d (l1 ++ l2) s =
    match fire_data to_text d l1 s with
    | (Completed _, s') => fire_data to_text d l2 s'
    | thrown => thrown
    end.
Proof.
  revert s. induction l1 as [|[id l] l1 IH]; intros s; simpl; [done|].
  destruct (run_data_listener to_text d l s); [apply IH|done].
Qed.

(** Listeners neither register nor remove listeners. *)
Lemma ptys_ws_send w d s : ptys (ws_send w d s) = ptys s.
Proof.
  unfold ws_send. destruct (sockets s !! w) as [k|]; [|done]. by destruct (closed k).
Qed.

Lemma sessions_ws_send w d s : sessions (ws_send w d s) = sessions s.
Proof.
  unfold ws_send. destruct (sockets s !! w) as [k|]; [|done]. by destruct (closed k).
Qed.

Lemma ptys_run_data_listener d l s s' :
  run_data_listener to_text d l s = Some s' → ptys s' = ptys s.
Proof.
  destruct l as [p|x w]; simpl.
  - destruct (sessions s !! p); [|done]. by intros [= <-].
  - intros [= <-]. by rewrite ptys_ws_send.
Qed.

Lemma ptys_fire_data d ls s : ptys (fire_data to_text d ls s).2 = ptys s.
Proof.
  revert s. induction ls as [|[id l] ls IH]; intros s; simpl; [done|].
  destruct (run_data_listener to_text d l s) as [s'|] eqn:Hl; [|done].
  rewrite IH. by eapply ptys_run_data_listener.
Qed.

(** Without a buffering listener no session changes. *)
Lemma fire_data_fanout_only d ls s :
  (∀ id q, (id, BufferData q) ∉ ls) →
  ∃ s', fire_data to_text d ls s = (Completed None, s') ∧ sessions s' = sessions s.
Proof.
  revert s. induction ls as [|[id l] ls IH]; intros s Hno; simpl; [eauto|].
  destruct l as [q|x w].
  - destruct (Hno id q). apply list_elem_of_here.
  - simpl. destruct (IH (ws_send w d (xterm_write x d s))) as (s' & -> & Hs').
    + intros id' q Hin. apply (Hno id' q). by apply list_elem_of_further.
    + eexists. split; [done|]. by rewrite Hs', sessions_ws_send.
Qed.

(** Listeners that buffer for registered sessions and forward to other
    sockets leave socket [w] alone and do not throw. *)
Lemma fire_data_other_sockets w d ls s :
  (∀ id q, (id, BufferData q) ∈ ls → is_Some (sessions s !! q)) →
  (∀ id x w', (id, FanOut x w') ∈ ls → w' ≠ w) →
  ∃ s', fire_data to_text d ls s = (Completed None, s')
        ∧ sockets s' !! w = sockets s !! w
        ∧ ∀ q, is_Some (sessions s !! q) → is_Some (sessions s' !! q).
Proof.
  revert s. induction ls as [|[id l] ls IH]; intros s Hbuf Hfan; simpl; [eauto|].
  assert (∀ s0, (∀ q, is_Some (sessions s !! q) → is_Some (sessions s0 !! q)) →
                sockets s0 !! w = sockets s !! w →
                ∃ s', fire_data to_text d ls s0 = (Completed None, s')
                      ∧ sockets s' !! w = sockets s !! w
                      ∧ ∀ q, is_Some (sessions s !! q) → is_Some (sessions s' !! q))
    as Hrest.
  { intros s0 Hsess Hsock. destruct (IH s0) as (s' & Hf & Hw & Hq).
    - intros id' q Hin. apply Hsess, (Hbuf id'). by apply list_elem_of_further.
    - intros id' x w' Hin. apply (Hfan id' x). by apply list_elem_of_further.
    - exists s'. split; [done|]. split; [congruence|]. auto. }
  destruct l as [q|x w'].
  - destruct (Hbuf id q) as [y Hy]; [apply list_elem_of_here|].
    simpl. rewrite Hy. apply Hrest; [|done].
    intros q'. simpl. rewrite lookup_alter_is_Some. done.
  - simpl. apply Hrest.
    + intros q. by rewrite sessions_ws_send.
    + assert (w' ≠ w) as Hne by (apply (Hfan id x); apply list_elem_of_here).
      unfold ws_send. simpl. destruct (sockets s !! w') as [k|]; [|done].
      destruct (closed k); [done|]. simpl. by rewrite list_lookup_alter_ne.
Qed.

(** What a data event adds to the trace. *)
Lemma trace_fire_data d ls0 ls s :
  ls ⊆ ls0 →
  ∃ es, trace (fire_data to_text d ls s).2 = trace s ++ es ∧ fanout_blocks d ls0 es.
Proof.
  revert s. induction ls as [|[id l] ls IH]; intros s Hsub; simpl.
  { exists []. split; [by rewrite app_nil_r|constructor]. }
  assert (ls ⊆ ls0) as Hsub' by (intros r Hr; apply Hsub; by apply list_elem_of_further).
  destruct l as [q|x w]; simpl.
  - destruct (sessions s !! q).
    + destruct (IH (update_session q
                      (with_terminalData (terminalData s0 +:+ to_text d)) s) Hsub')
        as (es & -> & Hes). by exists es.
    + exists []. split; [by rewrite app_nil_r|constructor].
  - assert ((id, FanOut x w) ∈ ls0) as Hin by (apply Hsub, list_elem_of_here).
    destruct (IH (ws_send w d (xterm_write x d s)) Hsub') as (es & -> & Hes).
    unfold ws_send. simpl. destruct (sockets s !! w) as [k|].
    + destruct (closed k); simpl.
      * exists (EWrite x d :: es). split; [by rewrite <- app_assoc|].
        by apply (blocks_write _ _ id x w).
      * exists (EWrite x d :: ESend w d :: es).
        split; [by rewrite <- !app_assoc|]. by apply (blocks_write_send _ _ id).
    + exists (EWrite x d :: es). simpl. split; [by rewrite <- app_assoc|].
      by apply (blocks_write _ _ id x w).
Qed.

(** In such a trace a send is directly preceded by the write of the same
    chunk to the terminal of the same listener. *)
Lemma fanout_blocks_send d ls es pre w d' post :
  fanout_blocks d ls es → es = pre ++ ESend w d' :: post →
  d' = d ∧ ∃ pre' x id, pre = pre' ++ [EWrite x d] ∧ (id, FanOut x w) ∈ ls.
Proof.
  intros Hes. revert pre. induction Hes as [|id x w0 es Hin Hes IH|id x w0 es Hin Hes IH];
    intros pre Heq.
  - by destruct pre.
  - destruct pre as [|e pre]; [discriminate|]. injection Heq as <- Heq.
    destruct (IH _ Heq) as (-> & pre' & x' & id' & -> & Hin').
    split; [done|]. by exists (EWrite x d :: pre'), x', id'.
  - destruct pre as [|e pre]; [discriminate|]. injection Heq as <- Heq.
    destruct pre as [|e pre].
    + injection Heq as <- <- <-. split; [done|]. by exists [], x, id.
    + injection Heq as <- Heq.
      destruct (IH _ Heq) as (-> & pre' & x' & id' & -> & Hin').
      split; [done|]. by exists (EWrite x d :: ESend w0 d :: pre'), x', id'.
Qed.

End DataEvents.

(** ** The identifier a client is given names its session *)

Lemma digit_pretty_N_char (n : N) :
  (n < 10)%N → JS.digit (pretty_N_char n) = Some (Z.of_N n).
Proof.
  intros Hn.
  assert (n = 0 ∨ n = 1 ∨ n = 2 ∨ n = 3 ∨ n = 4 ∨ n = 5 ∨ n = 6 ∨ n = 7 ∨ n = 8 ∨ n = 9)%N
    as H by lia.
  repeat (destruct H as [->|H]; [reflexivity|]). by subst.
Qed.

Lemma parseInt_leading_digit (n : N) (r : string) :
  (n < 10)%N →
  JS.parseInt (String (pretty_N_char n) r) = JS.digits (String (pretty_N_char n) r) None.
Proof.
  intros Hn.
  assert (n = 0 ∨ n = 1 ∨ n = 2 ∨ n = 3 ∨ n = 4 ∨ n = 5 ∨ n = 6 ∨ n = 7 ∨ n = 8 ∨ n = 9)%N
    as H by lia.
  repeat (destruct H as [->|H]; [reflexivity|]). by subst.
Qed.

(** The decimal digits of a positive number, read back. *)
Lemma digits_pretty_N_go (x : N) (s : string) :
  (0 < x)%N →
  JS.digits (pretty_N_go x s) None = JS.digits s (Some (Z.of_N x))
  ∧ ∃ n r, (n < 10)%N ∧ pretty_N_go x s = String (pretty_N_char n) r.
Proof.
  revert s. induction (N.lt_wf_0 x) as [x _ IH]. intros s Hx.
  rewrite pretty_N_go_step by done.
  assert (x `mod` 10 < 10)%N as Hmod by (apply N.mod_lt; lia).
  destruct (decide (x `div` 10 = 0)%N) as [Hdiv|Hdiv].
  - rewrite Hdiv, pretty_N_go_0. split; [|eauto].
    cbn [JS.digits]. rewrite digit_pretty_N_char by done. simpl.
    do 2 f_equal. pose proof (N.div_mod x 10 ltac:(done)) as H.
    rewrite Hdiv, N.mul_0_r, N.add_0_l in H. by rewrite <- H.
  - destruct (IH (x `div` 10)%N) with (s := String (pretty_N_char (x `mod` 10)) s)
      as [Hdigits Hlead].
    + apply N.div_lt; lia.
    + by apply N.neq_0_lt_0.
    + split; [|done]. rewrite Hdigits. cbn [JS.digits].
      rewrite digit_pretty_N_char by done. simpl.
      do 2 f_equal. pose proof (N.div_mod x 10 ltac:(done)) as H.
      rewrite H at 3. rewrite N2Z.inj_add, N2Z.inj_mul. done.
Qed.

(** [parseInt] reads back the decimal rendering of a pid, so that the
    identifier [POST /terminals] answers with is the key of the entry it
    filed. *)
Lemma parseInt_pretty (p : Z) : JS.parseInt (pretty p) = Some p.
Proof.
  destruct p as [|q|q]; [done| |].
  - change (pretty (Z.pos q)) with (pretty_N_go (N.pos q) EmptyString).
    destruct (digits_pretty_N_go (N.pos q) EmptyString) as (Hd & n & r & Hn & Hr); [lia|].
    rewrite Hr, parseInt_leading_digit, <- Hr, Hd by done. done.
  - change (pretty (Z.neg q)) with (String "-" (pretty_N_go (N.pos q) EmptyString)).
    destruct (digits_pretty_N_go (N.pos q) EmptyString) as (Hd & _); [lia|].
    unfold JS.parseInt. cbn [JS.trim_start]. 
    change (JS.is_white_space "-") with false. cbv iota.
    rewrite Hd. done.
Qed.

(** * The claims *)

Section Claims.

Variable serialize : Terminal → string.
Variable to_text : string → string.
Variable pty_resizable xterm_resizable : JS.Num → JS.Num → bool.

Local Abbreviation handle := (step serialize to_text pty_resizable xterm_resizable).
Local Abbreviation runs := (run serialize to_text pty_resizable xterm_resizable).
Local Abbreviation emits := (emit serialize to_text pty_resizable xterm_resizable).
Local Abbreviation reach := (reachable serialize to_text pty_resizable xterm_resizable).

(** ** Fan-out and detach *)



(** ** Create *)

Lemma or_default_falsy (x : JS.Num) (d : Z) :
  (∀ n, x = Some n → n = 0) → JS.or_default x d = d.
Proof.
  intros H. destruct x as [n|]; simpl; [|done].
  by rewrite (H n eq_refl).
Qed.

Lemma or_default_truthy (n d : Z) : n ≠ 0 → JS.or_default (Some n) d = n.
Proof. intros H. simpl. destruct (Z.eqb_spec n 0); congruence. Qed.

Lemma or_default_not_nonzero (str : string) (d : Z) :
  ¬ parses_nonzero str → JS.or_default (JS.parseInt str) d = d.
Proof.
  intros H. apply or_default_falsy. intros n Hn.
  destruct (decide (n = 0)); [done|]. destruct H. by exists n.
Qed.


(** ** Unknown sessions and unhooked exits *)

(** A resize request for a pid that names no session: the destructuring
    of line 89 throws before anything is resized. *)
Lemma post_size_unknown s pid c r :
  lookup_session (JS.parseInt pid) s = None →
  ∃ err, handle s (PostSize pid c r) = (Threw err, s).
Proof. intros H. simpl. unfold post_size. rewrite H. eauto. Qed.

(** A terminate request for a pid that names no session: the guard of
    lines 162-167 ends the request and nothing changes. *)
Lemma post_terminate_unknown s pid :
  lookup_session (JS.parseInt pid) s = None →
  handle s (PostTerminate pid) = (Completed None, s).
Proof. intros H. simpl. unfold post_terminate. by rewrite H. Qed.

(** The exit event of a process nobody asked to terminate runs no
    listener: only the pty's exited flag changes. *)
Lemma pty_exit_unhooked s t pty :
  ptys s !! t = Some pty → exited pty = false → onExit pty = [] →
  ∃ s', handle s (PtyExit t) = (Completed None, s')
        ∧ sessions s' = sessions s ∧ xterms s' = xterms s.
Proof.
  intros Hp He Hl. simpl. unfold pty_exit. rewrite Hp, He, Hl. simpl. eauto.
Qed.

(** ** Runs of data events *)

Lemma append_cons (ch : ascii) (a b : string) :
  String ch a +:+ b = String ch (a +:+ b).
Proof. done. Qed.

Lemma append_assoc (a b c : string) : (a +:+ b) +:+ c = a +:+ b +:+ c.
Proof. induction a as [|ch a IH]; [done|]. by rewrite !append_cons, IH. Qed.

Lemma append_nil_r (a : string) : a +:+ EmptyString = a.
Proof. induction a as [|ch a IH]; [done|]. by rewrite append_cons, IH. Qed.

Lemma emit_cons t d ds s :
  emits t (d :: ds) s = emits t ds (handle s (PtyData t d)).2.
Proof. done. Qed.

(** While the buffering listener is the only one, every chunk goes to the
    end of the buffer and nowhere else. *)
Lemma emit_buffers t ds s pty p x id :
  ptys s !! t = Some pty → exited pty = false →
  onData pty = [(id, BufferData p)] → sessions s !! p = Some x →
  ptys (emits t ds s) = ptys s
  ∧ sockets (emits t ds s) = sockets s
  ∧ sessions (emits t ds s) !! p
      = Some (with_terminalData (terminalData x +:+ raw_output to_text ds) x).
Proof.
  revert s x. induction ds as [|d ds IH]; intros s x Hp He Hl Hx.
  { simpl. rewrite append_nil_r. by destruct x. }
  rewrite emit_cons. simpl. unfold pty_data. rewrite Hp, He, Hl. simpl.
  rewrite Hx. simpl.
  set (s1 := update_session _ _ s).
  destruct (IH s1 (with_terminalData (terminalData x +:+ to_text d) x))
    as (Hptys & Hsocks & Hsess); try done.
  { subst s1. simpl. by rewrite lookup_alter_eq, Hx. }
  rewrite Hptys, Hsocks, Hsess. simpl. by rewrite append_assoc.
Qed.

(** While no buffering listener is registered on the pty, its chunks
    change no session. *)
Lemma emit_fanout_only t ds s pty :
  ptys s !! t = Some pty → (∀ id q, (id, BufferData q) ∉ onData pty) →
  sessions (emits t ds s) = sessions s.
Proof.
  revert s. induction ds as [|d ds IH]; intros s Hp Hno; [done|].
  rewrite emit_cons. simpl. unfold pty_data. rewrite Hp.
  destruct (exited pty) eqn:He; simpl.
  - by apply IH.
  - destruct (fire_data_fanout_only to_text d (onData pty) s Hno) as (s' & Hf & Hs').
    rewrite <- Hs'. pose proof (ptys_fire_data to_text d (onData pty) s) as Hptys.
    rewrite Hf in *. simpl in *. apply IH; [|done]. by rewrite Hptys.
Qed.

(** A socket whose fan-out listener is the last one registered on a live
    pty, and the only one for that socket, is sent every chunk in order. *)
Lemma emit_streams t ds s pty w k ls id x :
  ptys s !! t = Some pty → exited pty = false →
  onData pty = ls ++ [(id, FanOut x w)] →
  (∀ id' q, (id', BufferData q) ∈ ls → is_Some (sessions s !! q)) →
  (∀ id' x' w', (id', FanOut x' w') ∈ ls → w' ≠ w) →
  sockets s !! w = Some k → closed k = false →
  ∃ k', sockets (emits t ds s) !! w = Some k' ∧ sent k' = sent k ++ ds.
Proof.
  revert s k. induction ds as [|d ds IH]; intros s k Hp He Hl Hbuf Hfan Hk Hopen.
  { exists k. by rewrite app_nil_r. }
  rewrite emit_cons. simpl. unfold pty_data. rewrite Hp, He, Hl, fire_data_app.
  destruct (fire_data_other_sockets to_text w d ls s Hbuf Hfan) as (s' & Hf & Hw & Hsess).
  pose proof (ptys_fire_data to_text d ls s) as Hptys.
  rewrite Hf in *. simpl in Hptys. heap_simpl. unfold ws_send. heap_simpl.
  rewrite Hw, Hk, Hopen. heap_simpl.
  set (s1 := log _ _).
  destruct (IH s1 (with_sent d k)) as (k' & Hk' & Hsent); try done.
  - subst s1. simpl. by rewrite Hptys.
  - intros id' q Hin. subst s1. simpl. by apply Hsess, (Hbuf id').
  - subst s1. simpl. rewrite list_lookup_alter_eq, Hw, Hk. done.
  - exists k'. split; [done|]. rewrite Hsent. simpl. by rewrite <- app_assoc.
Qed.

(** ** Attach *)

(** C2, as amended. An attach hands the buffered bytes to the new
    transport and leaves the session's buffer as it was: the buffer is not
    cleared, and a second attach with no output and no detach in between
    is sent the same bytes again. *)
Theorem attach_keeps_buffer s seg p x :
  JS.parseInt seg = Some p → sessions s !! p = Some x →
  let w := length (sockets s) in
  let s1 := (handle s (WsConnect seg)).2 in
  let s2 := (handle s1 (WsConnect seg)).2 in
  (∃ x1, sessions s1 !! p = Some x1 ∧ terminalData x1 = terminalData x)
  ∧ (∃ k, sockets s1 !! w = Some k ∧ sent k = [terminalData x])
  ∧ (∃ x2, sessions s2 !! p = Some x2 ∧ terminalData x2 = terminalData x)
  ∧ (∃ k, sockets s2 !! S w = Some k ∧ sent k = [terminalData x]).
Proof.
  intros Hp Hx w s1 s2.
  destruct (ws_connect_attached s seg p x Hp Hx)
    as (s1' & Hs1 & Hsess1 & Hsock1 & _).
  assert (s1 = s1') as -> by (subst s1; simpl; by rewrite Hs1).
  set (x1 := mkSession _ _ _ _ _ _) in Hsess1.
  assert (sessions s1' !! p = Some x1) as Hx1 by (rewrite Hsess1; apply lookup_insert_eq).
  destruct (ws_connect_attached s1' seg p x1 Hp Hx1)
    as (s2' & Hs2 & Hsess2 & Hsock2 & _).
  assert (s2 = s2') as -> by (subst s2; simpl; by rewrite Hs2).
  assert (length (sockets s1') = S w) as Hlen
    by (rewrite Hsock1, length_app; simpl; lia).
  repeat split.
  - by exists x1.
  - eexists. rewrite Hsock1. split; [apply lookup_snoc|done].
  - eexists. rewrite Hsess2. split; [apply lookup_insert_eq|done].
  - eexists. rewrite Hsock2, <- Hlen. split; [apply lookup_snoc|done].
Qed.


Lemma truthy_nonempty (str : string) : str ≠ EmptyString → JS.truthy str = true.
Proof. by destruct str. Qed.



(** ** Terminate and exit *)

(** What terminate does to a registered session: the fan-out subscription
    goes, the exit hook is added, the process is sent one kill; the entry
    stays in the table. *)
Lemma post_terminate_known s pidS p x pty tm :
  JS.parseInt pidS = Some p → sessions s !! p = Some x →
  ptys s !! term x = Some pty → xterms s !! xterm x = Some tm →
  ∃ s1 pty1 tm1,
    handle s (PostTerminate pidS) = (Completed None, s1)
    ∧ ptys s1 !! term x = Some pty1
    ∧ onExit pty1 = onExit pty ++ [mkExitListener (xterm x) p]
    ∧ kills pty1 = S (kills pty) ∧ exited pty1 = exited pty
    ∧ xterms s1 !! xterm x = Some tm1 ∧ disposals tm1 = disposals tm
    ∧ delete p (sessions s1) = delete p (sessions s).
Proof.
  intros Hp Hx Hpty Htm. simpl. unfold post_terminate, lookup_session.
  rewrite Hp. simpl. rewrite Hx. simpl.
  assert (∀ s0 pty0 tm0,
            ptys s0 !! term x = Some pty0 → onExit pty0 = onExit pty →
            kills pty0 = kills pty → exited pty0 = exited pty →
            xterms s0 !! xterm x = Some tm0 → disposals tm0 = disposals tm →
            delete p (sessions s0) = delete p (sessions s) →
            ∃ s1 pty1 tm1,
              (Completed None,
               update_pty (term x) with_kill
                 (update_pty (term x) (with_onExit (mkExitListener (xterm x) p)) s0))
                = (Completed None, s1)
              ∧ ptys s1 !! term x = Some pty1
              ∧ onExit pty1 = onExit pty ++ [mkExitListener (xterm x) p]
              ∧ kills pty1 = S (kills pty) ∧ exited pty1 = exited pty
              ∧ xterms s1 !! xterm x = Some tm1 ∧ disposals tm1 = disposals tm
              ∧ delete p (sessions s1) = delete p (sessions s)) as Hrest.
  { intros s0 pty0 tm0 Hpty0 Hexit Hkills Hexited Htm0 Hdisp Hsess.
    eexists _, _, tm0. split; [reflexivity|]. heap_simpl.
    rewrite !list_lookup_alter_eq, Hpty0. simpl. split; [reflexivity|]. simpl.
    rewrite Hexit, Hkills, Hexited. by repeat split. }
  assert (∀ d, ∃ pty0, alter (with_onData (filter (λ r, r.1 ≠ d.2))) d.1 (ptys s)
                         !! term x = Some pty0
                       ∧ onExit pty0 = onExit pty ∧ kills pty0 = kills pty
                       ∧ exited pty0 = exited pty) as Hdisposed.
  { intros d. rewrite list_lookup_alter. case_decide as Hd.
    - rewrite Hd, Hpty. simpl. eauto.
    - eauto. }
  destruct (dataHandler x) as [d|]; [destruct (JS.truthy (terminalData x))|].
  - destruct (Hdisposed d) as (pty0 & Hpty0 & ? & ? & ?).
    assert (∃ tm0, alter with_addon_disposal (serializeAddon x) (xterms s) !! xterm x
                     = Some tm0 ∧ disposals tm0 = disposals tm) as (tm0 & Htm0 & ?).
    { rewrite list_lookup_alter. case_decide as Ha.
      - rewrite Ha, Htm. simpl. eauto.
      - eauto. }
    eapply (Hrest _ pty0 tm0); heap_simpl; try done.
    by rewrite !delete_alter_eq.
  - destruct (Hdisposed d) as (pty0 & Hpty0 & ? & ? & ?).
    eapply (Hrest _ pty0 tm); heap_simpl; try done.
    by rewrite !delete_alter_eq.
  - by eapply (Hrest _ pty tm).
Qed.

(** C4, as amended. For a live session nobody has asked to terminate yet,
    a terminate request followed by the exit of the process is one
    teardown: one kill, one disposal of the Screen Model, the entry
    removed from the registry; a terminate request that arrives after
    the exit is a no-op. *)
Theorem terminate_after_exit_is_noop s pidS p x pty tm :
  JS.parseInt pidS = Some p → sessions s !! p = Some x →
  ptys s !! term x = Some pty → xterms s !! xterm x = Some tm →
  exited pty = false → kills pty = 0%nat → onExit pty = [] →
  let terminating := (handle s (PostTerminate pidS)).2 in
  let terminated := (handle terminating (PtyExit (term x))).2 in
  (∃ pty', ptys terminated !! term x = Some pty'
           ∧ kills pty' = 1%nat ∧ exited pty' = true)
  ∧ (∃ tm', xterms terminated !! xterm x = Some tm'
            ∧ disposals tm' = S (disposals tm))
  ∧ sessions terminated = delete p (sessions s)
  ∧ handle terminated (PostTerminate pidS) = (Completed None, terminated).
Proof.
  intros Hp Hx Hpty Htm Hlive Hkills Hhooks terminating terminated.
  destruct (post_terminate_known s pidS p x pty tm Hp Hx Hpty Htm)
    as (s1 & pty1 & tm1 & Hs1 & Hpty1 & Hexit & Hk & He & Htm1 & Hdisp & Hsess).
  assert (terminating = s1) as Heq by (subst terminating; by rewrite Hs1).
  clearbody terminating. subst s1.
  rewrite Hhooks in Hexit. rewrite Hkills in Hk. rewrite Hlive in He.
  assert (terminated =
            set_sessions (delete p)
              (update_xterm (xterm x) with_disposal
                 (update_pty (term x) with_exited terminating))) as Heq.
  { subst terminated. simpl. unfold pty_exit. rewrite Hpty1, He, Hexit. done. }
  clearbody terminated. subst terminated.
  assert (delete p (sessions terminating) !! p = None)
    as Hgone by apply lookup_delete_eq.
  repeat split.
  - heap_simpl. rewrite list_lookup_alter_eq, Hpty1. simpl. eauto.
  - heap_simpl. rewrite list_lookup_alter_eq, Htm1. simpl.
    eexists. split; [done|]. simpl. by rewrite Hdisp.
  - done.
  - simpl. unfold post_terminate, lookup_session. rewrite Hp. simpl.
    by rewrite Hgone.
Qed.

Lemma reachable_run es s : reach s → reach (runs es s).
Proof.
  revert s. induction es as [|e es IH]; intros s Hs; [done|].
  apply IH. by constructor.
Qed.

End Claims.

(** * The claims on concrete runs *)

Lemma reachable_unattached :
  reachable Sample.serialize id Sample.resizable Sample.resizable Scenario.unattached.
Proof. apply reachable_run. constructor. Qed.

Lemma reachable_attached :
  reachable Sample.serialize id Sample.resizable Sample.resizable Scenario.attached.
Proof. apply reachable_run, reachable_unattached. Qed.



(** C2, counterexample. The process writes ["hello"], a transport attaches
    and is sent ["hello"]; the buffer still holds ["hello"], and a second
    transport attaching right away is sent the same stale bytes. *)
Lemma second_attach_gets_stale_buffer :
  ∃ x k,
    sessions Scenario.attached !! 7 = Some x
    ∧ terminalData x = "hello" ∧ terminalData x ≠ EmptyString
    ∧ sockets (Sample.run [WsConnect "7"] Scenario.attached) !! 1%nat = Some k
    ∧ sent k = ["hello"].
Proof.
  eexists _, _. split; [vm_compute; reflexivity|]. simpl.
  split; [done|]. split; [done|]. split; [vm_compute; reflexivity|]. done.
Qed.

(** The amended C2 on a run: two attaches in a row after the process wrote
    ["hello"]; the second socket is sent ["hello"] again. *)
Lemma attach_keeps_buffer_witness :
  JS.parseInt "7" = Some 7
  ∧ sessions Scenario.unattached !! 7 = Some Scenario.session7
  ∧ ∃ k, sockets (Sample.run [WsConnect "7"; WsConnect "7"] Scenario.unattached) !! 1%nat
           = Some k
         ∧ sent k = ["hello"].
Proof.
  split; [reflexivity|]. split; [vm_compute; reflexivity|].
  apply (attach_keeps_buffer Sample.serialize id Sample.resizable Sample.resizable
           Scenario.unattached "7" 7 Scenario.session7).
  - reflexivity.
  - vm_compute; reflexivity.
Defined.



(** C4, counterexample. Two terminate requests reach a live session before
    its process exits: the second one is not a no-op, the process is sent
    two kills and, at exit, the Screen Model is disposed twice. *)
Lemma terminate_twice_before_exit :
  (∃ pty, ptys (Sample.run [Scenario.create; PostTerminate "7"] init) !! 0%nat = Some pty
          ∧ kills pty = 1%nat ∧ length (onExit pty) = 1%nat)
  ∧ (∃ pty, ptys (Sample.run [Scenario.create; PostTerminate "7"; PostTerminate "7"] init)
              !! 0%nat = Some pty
            ∧ kills pty = 2%nat ∧ length (onExit pty) = 2%nat)
  ∧ (∃ tm, xterms (Sample.run [Scenario.create; PostTerminate "7"; PostTerminate "7";
                               PtyExit 0%nat] init) !! 0%nat = Some tm
           ∧ disposals tm = 2%nat).
Proof.
  repeat split; eexists; (split; [vm_compute; reflexivity|done]).
Qed.

(** The amended C4 on a run: terminate, exit, terminate on a fresh
    session. *)
Lemma terminate_after_exit_is_noop_witness :
  JS.parseInt "7" = Some 7
  ∧ sessions Scenario.created !! 7 = Some Scenario.fresh_session
  ∧ ptys Scenario.created !! 0%nat = Some Scenario.pty7
  ∧ xterms Scenario.created !! 0%nat = Some Scenario.xterm7
  ∧ exited Scenario.pty7 = false ∧ kills Scenario.pty7 = 0%nat
  ∧ onExit Scenario.pty7 = []
  ∧ Sample.step (Sample.run [PostTerminate "7"; PtyExit 0%nat] Scenario.created)
      (PostTerminate "7")
    = (Completed None, Sample.run [PostTerminate "7"; PtyExit 0%nat] Scenario.created).
Proof.
  split; [reflexivity|]. split; [vm_compute; reflexivity|].
  split; [vm_compute; reflexivity|]. split; [vm_compute; reflexivity|].
  split; [reflexivity|]. split; [reflexivity|]. split; [reflexivity|].
  apply (terminate_after_exit_is_noop Sample.serialize id Sample.resizable
           Sample.resizable Scenario.created "7" 7 Scenario.fresh_session
           Scenario.pty7 Scenario.xterm7).
  - reflexivity.
  - vm_compute; reflexivity.
  - vm_compute; reflexivity.
  - vm_compute; reflexivity.
  - reflexivity.
  - reflexivity.
  - reflexivity.
Defined.

(** C5. A resize request for a pid that names no session throws: the
    handler destructures [sessions[pid]] without the guard the terminate
    handler has, which ends the same request silently. *)
Theorem resize_unknown_session_throws :
  JS.parseInt "999" = Some 999 ∧ sessions init !! 999 = None
  ∧ Sample.step init (PostSize "999" "80" "24")
      = (Threw "TypeError: sessions[pid] is undefined", init)
  ∧ Sample.step init (PostTerminate "999") = (Completed None, init).
Proof. repeat split. Qed.





(** C9. A process exits without any terminate request: no exit hook is
    installed, so the session stays in the registry and its Screen Model
    is not disposed. *)
Theorem spontaneous_exit_keeps_session :
  ∃ pty tm,
    ptys (Sample.run [Scenario.create; PtyExit 0%nat] init) !! 0%nat = Some pty
    ∧ xterms (Sample.run [Scenario.create; PtyExit 0%nat] init) !! 0%nat = Some tm
    ∧ sessions (Sample.run [Scenario.create; PtyExit 0%nat] init) !! 7
        = Some Scenario.fresh_session
    ∧ exited pty = true ∧ kills pty = 0%nat ∧ disposals tm = 0%nat.
Proof.
  eexists _, _. split; [vm_compute; reflexivity|]. split; [vm_compute; reflexivity|].
  split; [vm_compute; reflexivity|]. done.
Qed.


(** * Further properties of the handlers *)

(** ** Predicates closed under the operations the handlers are made of *)

Section Closure.

Variable serialize : Terminal → string.
Variable to_text : string → string.
Variable pty_resizable xterm_resizable : JS.Num → JS.Num → bool.

(** A predicate on states, with the edits of a session and of a pty it
    tolerates. *)
Variable Q : Server → Prop.
Variable session_edit : (Session → Session) → Prop.
Variable pty_edit : (Pty → Pty) → Prop.

Hypothesis Q_update_session : ∀ p f s, session_edit f → Q s → Q (update_session p f s).
Hypothesis Q_update_pty : ∀ t f s, pty_edit f → Q s → Q (update_pty t f s).
Hypothesis Q_update_xterm : ∀ x f s, Q s → Q (update_xterm x f s).
Hypothesis Q_update_socket : ∀ w f s, Q s → Q (update_socket w f s).
Hypothesis Q_new_socket : ∀ k s, Q s → Q (set_sockets (.++ [k]) s).
Hypothesis Q_log : ∀ e s, Q s → Q (log e s).
Hypothesis Q_next_listener : ∀ n s, Q s → Q (set_next_listener n s).

Hypothesis edit_terminalData : ∀ d, session_edit (with_terminalData d).
Hypothesis edit_dataHandler : ∀ d, session_edit (with_dataHandler d).
Hypothesis edit_stop_buffering : session_edit (with_temporaryDisposable None).
Hypothesis edit_onData : ∀ f, pty_edit (with_onData f).
Hypothesis edit_input : ∀ m, pty_edit (with_input m).
Hypothesis edit_pty_size : ∀ c r, pty_edit (with_pty_size c r).

Lemma closed_ws_send w d s : Q s → Q (ws_send w d s).
Proof.
  intros Hs. unfold ws_send. destruct (sockets s !! w) as [k|]; [|done].
  destruct (closed k); [done|]. by apply Q_log, Q_update_socket.
Qed.

Lemma closed_xterm_write x d s : Q s → Q (xterm_write x d s).
Proof. intros Hs. by apply Q_log, Q_update_xterm. Qed.

Lemma closed_dispose d s : Q s → Q (dispose d s).
Proof. intros Hs. by apply Q_update_pty. Qed.

Lemma closed_term_onData t l s : Q s → Q (term_onData t l s).2.
Proof. intros Hs. by apply Q_next_listener, Q_update_pty. Qed.

Lemma closed_post_size p c r s :
  Q s → Q (post_size pty_resizable xterm_resizable p c r s).2.
Proof.
  intros Hs. unfold post_size.
  destruct (lookup_session _ s) as [[q x]|]; [|done].
  destruct (pty_resizable _ _); [|done].
  destruct (xterm_resizable _ _); simpl.
  - by apply Q_update_xterm, Q_update_pty.
  - by apply Q_update_pty.
Qed.

Lemma closed_ws_connect seg s : Q s → Q (ws_connect seg s).2.
Proof.
  intros Hs. unfold ws_connect.
  set (s0 := set_sockets _ s).
  assert (Q s0) as Hs0 by by apply Q_new_socket.
  destruct (lookup_session _ s0) as [[p x]|]; [|done].
  cbv zeta. unfold snd at 1.
  apply Q_update_socket, Q_update_session; [done|].
  apply closed_term_onData, closed_ws_send.
  destruct (temporaryDisposable x) as [d|]; [|done].
  destruct (JS.truthy _); [|done].
  by apply closed_xterm_write, Q_update_session, closed_dispose.
Qed.

Lemma closed_ws_message w msg s : Q s → Q (ws_message w msg s).2.
Proof.
  intros Hs. unfold ws_message.
  destruct (sockets s !! w) as [k|]; [|done].
  destruct (closed k), (handlers k); try done.
  by apply Q_update_pty.
Qed.

Lemma closed_ws_close w s : Q s → Q (ws_close serialize w s).2.
Proof.
  intros Hs. unfold ws_close.
  destruct (sockets s !! w) as [k|]; [|done].
  destruct (closed k); [done|].
  assert (Q (update_socket w with_closed s)) as Hs1 by by apply Q_update_socket.
  destruct (handlers k) as [c|]; [|done]. simpl. unfold on_close.
  destruct (sessions (update_socket w with_closed s) !! conn_pid c) as [x|]; [|done].
  destruct (dataHandler x) as [d|]; [|done].
  do 2 (apply Q_update_session; [done|]). by apply closed_dispose.
Qed.

Lemma closed_fire_data d ls s : Q s → Q (fire_data to_text d ls s).2.
Proof.
  revert s. induction ls as [|[id l] ls IH]; intros s Hs; simpl; [done|].
  destruct l as [p|x w]; simpl.
  - destruct (sessions s !! p); [|done]. by apply IH, Q_update_session.
  - by apply IH, closed_ws_send, closed_xterm_write.
Qed.

Lemma closed_pty_data t d s : Q s → Q (pty_data to_text t d s).2.
Proof.
  intros Hs. unfold pty_data.
  destruct (ptys s !! t) as [pty|]; [|done].
  destruct (exited pty); [done|]. by apply closed_fire_data.
Qed.

Lemma closed_post_terminate p s :
  pty_edit with_kill → (∀ l, pty_edit (with_onExit l)) →
  Q s → Q (post_terminate serialize p s).2.
Proof.
  intros Hkill Hexit Hs. unfold post_terminate.
  destruct (lookup_session _ s) as [[q x]|]; [|done].
  cbv zeta. unfold snd.
  do 2 (apply Q_update_pty; [done|]).
  destruct (dataHandler x) as [d|]; [|done].
  destruct (JS.truthy _).
  - apply Q_update_session; [done|].
    apply Q_update_xterm, Q_update_session; [done|]. by apply closed_dispose.
  - apply Q_update_session; [done|]. by apply closed_dispose.
Qed.

End Closure.

(** ** What the handlers never do to the registry and to the processes *)

Lemma same_session_refl x : same_session x x.
Proof. unfold same_session. auto. Qed.

Lemma same_session_trans x y z : same_session x y → same_session y z → same_session x z.
Proof.
  unfold same_session. intros (Ht & Hx & Ha & Hxy) (Ht' & Hx' & Ha' & Hyz).
  rewrite Ht', Hx', Ha', Ht, Hx, Ha. repeat split.
  destruct Hyz as [Hyz|Hyz]; rewrite Hyz; auto.
Qed.

Lemma registry_stable_refl s : registry_stable s s.
Proof.
  intros p. destruct (sessions s !! p) as [x|]; [|done].
  exists x. split; [done|apply same_session_refl].
Qed.

Lemma registry_stable_edit s0 p f s :
  (∀ x, same_session x (f x)) →
  registry_stable s0 s → registry_stable s0 (update_session p f s).
Proof.
  intros Hf Hs q. specialize (Hs q). simpl.
  destruct (sessions s0 !! q) as [x|].
  - destruct Hs as (x' & Hx' & Hsame).
    destruct (decide (p = q)) as [<-|Hq].
    + rewrite lookup_alter_eq, Hx'. simpl. eexists. split; [done|].
      eapply same_session_trans; eauto.
    + rewrite lookup_alter_ne by done. eauto.
  - destruct (decide (p = q)) as [<-|Hq].
    + by rewrite lookup_alter_eq, Hs.
    + by rewrite lookup_alter_ne.
Qed.

Lemma processes_spared_refl s : processes_spared s s.
Proof. intros t pty Hp. eauto. Qed.

Lemma processes_spared_edit s0 t f s :
  (∀ x, pid (f x) = pid x ∧ kills (f x) = kills x) →
  processes_spared s0 s → processes_spared s0 (update_pty t f s).
Proof.
  intros Hf Hs t' pty Hp. destruct (Hs _ _ Hp) as (pty' & Hp' & Hpid & Hkills).
  simpl. rewrite list_lookup_alter. case_decide; subst.
  - rewrite Hp'. simpl. eexists. split; [done|].
    destruct (Hf pty') as [-> ->]. done.
  - eauto.
Qed.

Section Frames.

Variable serialize : Terminal → string.
Variable to_text : string → string.
Variable pty_resizable xterm_resizable : JS.Num → JS.Num → bool.

(** X1. No handler other than session creation and the exit event of a
    process files, removes or replaces a registry entry: across every other
    event each registered session stays registered with the same process,
    terminal and addon, its buffering subscription is kept or dropped but
    never installed again, and no pid becomes registered. *)
Theorem registry_changes_only_on_create_and_exit s e :
  files_or_removes e = false →
  registry_stable s (step serialize to_text pty_resizable xterm_resizable s e).2.
Proof.
  intros He.
  assert (∀ s1 s2, sessions s2 = sessions s1 → registry_stable s s1 → registry_stable s s2)
    as Hsame.
  { intros s1 s2 Heq Hs1 p. specialize (Hs1 p). by rewrite Heq. }
  pose proof (registry_stable_refl s) as Hrefl.
  destruct e as [c r spawned|p c r|seg|w msg|w|p|t d|t]; try discriminate; simpl.
  - apply closed_post_size with (pty_edit := λ _, True); eauto.
  - apply closed_ws_connect
      with (session_edit := λ f, ∀ x, same_session x (f x)) (pty_edit := λ _, True);
      eauto using registry_stable_edit;
      intros; unfold same_session; simpl; auto.
  - apply closed_ws_message with (pty_edit := λ _, True); eauto.
  - apply closed_ws_close
      with (session_edit := λ f, ∀ x, same_session x (f x)) (pty_edit := λ _, True);
      eauto using registry_stable_edit;
      intros; unfold same_session; simpl; auto.
  - apply closed_post_terminate
      with (session_edit := λ f, ∀ x, same_session x (f x)) (pty_edit := λ _, True);
      eauto using registry_stable_edit;
      intros; unfold same_session; simpl; auto.
  - apply closed_pty_data
      with (session_edit := λ f, ∀ x, same_session x (f x));
      eauto using registry_stable_edit;
      intros; unfold same_session; simpl; auto.
Qed.

Lemma ptys_exit_listeners ls s : ptys (foldl run_exit_listener s ls) = ptys s.
Proof. revert s. induction ls as [|l ls IH]; intros s; simpl; [done|]. by rewrite IH. Qed.

(** X2. Only a terminate request sends a kill: across every other event,
    resize, attach, inbound message, detach, process output, exit and the
    creation of another session, each existing process keeps its pid and
    its count of kills. *)
Theorem only_terminate_kills s e :
  is_terminate e = false →
  processes_spared s (step serialize to_text pty_resizable xterm_resizable s e).2.
Proof.
  intros He.
  assert (∀ s1 s2, ptys s2 = ptys s1 → processes_spared s s1 → processes_spared s s2)
    as Hsame.
  { intros s1 s2 Heq Hs1 t pty Hp. rewrite Heq. eauto. }
  pose proof (processes_spared_refl s) as Hrefl.
  set (spares := λ f : Pty → Pty, ∀ x, pid (f x) = pid x ∧ kills (f x) = kills x).
  destruct e as [c r spawned|p c r|seg|w msg|w|p|t d|t]; try discriminate; simpl.
  - unfold post_terminals.
    destruct c as [c|], r as [r|], spawned as [p|]; try done.
    intros t pty Hp. simpl. rewrite alter_snoc.
    rewrite lookup_app_l by (by eapply lookup_lt_Some). eauto.
  - apply closed_post_size with (pty_edit := spares);
      eauto using processes_spared_edit; by intros.
  - apply closed_ws_connect with (session_edit := λ _, True) (pty_edit := spares);
      eauto using processes_spared_edit; by intros.
  - apply closed_ws_message with (pty_edit := spares);
      eauto using processes_spared_edit; by intros.
  - apply closed_ws_close with (session_edit := λ _, True) (pty_edit := spares);
      eauto using processes_spared_edit; by intros.
  - apply closed_pty_data with (session_edit := λ _, True); eauto.
  - unfold pty_exit. destruct (ptys s !! t) as [pty|] eqn:Hpty; [|done].
    destruct (exited pty); [done|]. simpl.
    apply (Hsame (update_pty t with_exited s)); [apply ptys_exit_listeners|].
    by apply processes_spared_edit.
Qed.

Lemma sessions_exit_listeners ls s q :
  sessions (foldl run_exit_listener s ls) !! q
  = if decide (q ∈ exit_pid <$> ls) then None else sessions s !! q.
Proof.
  revert s. induction ls as [|l ls IH]; intros s.
  { case_decide as Hin; [|done]. by apply elem_of_nil in Hin. }
  cbn [foldl]. rewrite IH. rewrite fmap_cons.
  destruct (decide (q ∈ exit_pid <$> ls)) as [Hin|Hin].
  - rewrite decide_True; [done|]. by apply list_elem_of_further.
  - unfold run_exit_listener. cbn [sessions set_sessions update_xterm set_xterms].
    destruct (decide (q = exit_pid l)) as [->|Hne].
    + rewrite lookup_delete_eq, decide_True; [done|]. apply list_elem_of_here.
    + rewrite lookup_delete_ne by done. rewrite decide_False; [done|].
      intros [?|?]%elem_of_cons; done.
Qed.

Lemma sockets_exit_listeners ls s :
  sockets (foldl run_exit_listener s ls) = sockets s
  ∧ trace (foldl run_exit_listener s ls) = trace s.
Proof.
  revert s. induction ls as [|l ls IH]; intros s; simpl; [done|].
  destruct (IH (run_exit_listener s l)) as [-> ->]. done.
Qed.

(** X3. The exit event of a live process removes from the registry exactly
    the pids its exit hooks were registered for by terminate requests, and
    no other entry; it marks the process as exited, sends nothing to any
    transport and closes none. *)
Theorem exit_removes_hooked_sessions s t pty q :
  ptys s !! t = Some pty → exited pty = false →
  let s' := (step serialize to_text pty_resizable xterm_resizable s (PtyExit t)).2 in
  sessions s' !! q
    = (if decide (q ∈ exit_pid <$> onExit pty) then None else sessions s !! q)
  ∧ ptys s' = alter with_exited t (ptys s)
  ∧ sockets s' = sockets s ∧ trace s' = trace s.
Proof.
  intros Hpty Hlive. simpl. unfold pty_exit. rewrite Hpty, Hlive. simpl.
  rewrite sessions_exit_listeners, ptys_exit_listeners.
  destruct (sockets_exit_listeners (onExit pty) (update_pty t with_exited s)) as [-> ->].
  done.
Qed.

(** X4. The HTTP routes never reach a transport: creating, resizing or
    terminating a session sends nothing to any socket and leaves every
    socket, open or closed, with its callbacks as it was; in particular a
    terminate request neither closes nor notifies the attached transport. *)
Theorem http_routes_spare_transports s e :
  is_http e = true →
  sockets (step serialize to_text pty_resizable xterm_resizable s e).2 = sockets s
  ∧ trace (step serialize to_text pty_resizable xterm_resizable s e).2 = trace s.
Proof.
  intros He.
  destruct e as [c r spawned|p c r|seg|w msg|w|p|t d|t]; try discriminate; simpl.
  - unfold post_terminals.
    by destruct c as [c|], r as [r|], spawned as [p|].
  - unfold post_size. destruct (lookup_session _ s) as [[q x]|]; [|done].
    destruct (pty_resizable _ _); [|done]. by destruct (xterm_resizable _ _).
  - unfold post_terminate. destruct (lookup_session _ s) as [[q x]|]; [|done].
    destruct (dataHandler x) as [d|]; [|done]. by destruct (JS.truthy _).
Qed.

Lemma fire_data_sessions_other d ls s q :
  (∀ id q', (id, BufferData q') ∈ ls → q' ≠ q) →
  sessions (fire_data to_text d ls s).2 !! q = sessions s !! q.
Proof.
  revert s. induction ls as [|[id l] ls IH]; intros s Hls; [done|].
  assert (∀ id' q', (id', BufferData q') ∈ ls → q' ≠ q) as Hrest
    by (intros id' q' Hin; apply (Hls id'); by apply list_elem_of_further).
  destruct l as [p|x w]; cbn [fire_data run_data_listener].
  - destruct (sessions s !! p); [|done]. rewrite IH by done.
    cbn [sessions update_session set_sessions]. apply lookup_alter_ne.
    apply (Hls id). apply list_elem_of_here.
  - rewrite IH by done. by rewrite sessions_ws_send.
Qed.

Lemma fire_data_completes d ls s :
  (∀ id q, (id, BufferData q) ∈ ls → is_Some (sessions s !! q)) →
  (fire_data to_text d ls s).1 = Completed None.
Proof.
  revert s. induction ls as [|[id l] ls IH]; intros s Hls; [done|].
  destruct l as [p|x w]; cbn [fire_data run_data_listener].
  - destruct (Hls id p) as [y Hy]; [apply list_elem_of_here|]. rewrite Hy.
    apply IH. intros id' q Hin. cbn [sessions update_session set_sessions].
    rewrite lookup_alter_is_Some. apply (Hls id'). by apply list_elem_of_further.
  - apply IH. intros id' q Hin. rewrite sessions_ws_send.
    apply (Hls id'). by apply list_elem_of_further.
Qed.

(** X5. In every state the server reaches, the output of a process concerns
    its own session only: a data event changes no registry entry filed
    under another pid and no pty, and while the session of the process is
    registered no listener throws. *)
Theorem output_stays_in_its_session s t pty d :
  reachable serialize to_text pty_resizable xterm_resizable s →
  ptys s !! t = Some pty →
  let r := step serialize to_text pty_resizable xterm_resizable s (PtyData t d) in
  (∀ q, q ≠ pid pty → sessions r.2 !! q = sessions s !! q)
  ∧ ptys r.2 = ptys s
  ∧ (is_Some (sessions s !! pid pty) → r.1 = Completed None).
Proof.
  intros Hreach Hpty. simpl.
  pose proof (reachable_consistent _ _ _ _ s Hreach) as Hcons.
  unfold pty_data. rewrite Hpty.
  assert (∀ id q, (id, BufferData q) ∈ onData pty → q = pid pty) as Hown
    by (intros id q Hin; by destruct (buffering_listener s Hcons _ _ _ _ Hpty Hin)).
  destruct (exited pty); [done|].
  split; [|split].
  - intros q Hq. apply fire_data_sessions_other.
    intros id q' Hin ->. by apply Hq, (Hown id).
  - apply ptys_fire_data.
  - intros Hsome. apply fire_data_completes.
    intros id q Hin. by rewrite (Hown _ _ Hin).
Qed.

End Frames.

(** ** Attach, detach and inbound traffic *)

Section Traffic.

Variable serialize : Terminal → string.
Variable to_text : string → string.
Variable pty_resizable xterm_resizable : JS.Num → JS.Num → bool.

Local Abbreviation handle := (step serialize to_text pty_resizable xterm_resizable).
Local Abbreviation runs := (run serialize to_text pty_resizable xterm_resizable).
Local Abbreviation emits := (emit serialize to_text pty_resizable xterm_resizable).
Local Abbreviation reach := (reachable serialize to_text pty_resizable xterm_resizable).

(** X6. Inbound messages of an open, attached socket are written to the
    process its callbacks hold, verbatim and in order, whether or not the
    session is still registered; they change nothing else: no session, no
    terminal, no socket, and nothing is sent. *)
Theorem inbound_reaches_process s w k c pty ms :
  sockets s !! w = Some k → closed k = false → handlers k = Some c →
  ptys s !! conn_term c = Some pty →
  let s' := run serialize to_text pty_resizable xterm_resizable (WsMessage w <$> ms) s in
  (∃ pty', ptys s' !! conn_term c = Some pty'
           ∧ input pty' = input pty ++ ms
           ∧ pid pty' = pid pty ∧ kills pty' = kills pty ∧ onData pty' = onData pty)
  ∧ sessions s' = sessions s ∧ xterms s' = xterms s
  ∧ sockets s' = sockets s ∧ trace s' = trace s.
Proof.
  intros Hk Hopen Hc. revert s pty Hk.
  induction ms as [|m ms IH]; intros s pty Hk Hpty.
  { simpl. rewrite app_nil_r. eauto 10. }
  change (runs (WsMessage w <$> m :: ms) s)
    with (runs (WsMessage w <$> ms) (handle s (WsMessage w m)).2).
  cbn [step]. unfold ws_message. rewrite Hk, Hopen, Hc. cbn [snd].
  destruct (IH (update_pty (conn_term c) (with_input m) s) (with_input m pty))
    as ((pty' & Hpty' & Hin & Hpid & Hkills & Hdata) & -> & -> & -> & ->).
  - done.
  - cbn [ptys update_pty set_ptys]. by rewrite list_lookup_alter_eq, Hpty.
  - split; [|done]. exists pty'. split; [done|]. rewrite Hin. cbn [input with_input].
    by rewrite <- app_assoc.
Qed.


(** X8. When the session a closing socket names is gone, or holds no
    fan-out subscription any more, the close callback only marks the
    socket closed: no listener is disposed and the buffer is not
    overwritten. *)
Theorem close_without_subscription s w k c :
  sockets s !! w = Some k → closed k = false → handlers k = Some c →
  (sessions s !! conn_pid c = None
   ∨ ∃ x, sessions s !! conn_pid c = Some x ∧ dataHandler x = None) →
  step serialize to_text pty_resizable xterm_resizable s (WsClose w)
    = (Completed None, update_socket w with_closed s).
Proof.
  intros Hk Hopen Hc Hgone. cbn [step]. unfold ws_close. rewrite Hk, Hopen, Hc.
  unfold on_close. cbn [sessions update_socket set_sockets].
  destruct Hgone as [->|(x & -> & ->)]; done.
Qed.

(** What the close callback does while the subscription is installed. *)
Lemma ws_close_detaches s w k c x d :
  sockets s !! w = Some k → closed k = false → handlers k = Some c →
  sessions s !! conn_pid c = Some x → dataHandler x = Some d →
  ∃ s',
    handle s (WsClose w) = (Completed None, s')
    ∧ sessions s' = <[conn_pid c :=
                        mkSession (term x) (xterm x) (serializeAddon x)
                          (serialize_at serialize (conn_addon c) s)
                          (temporaryDisposable x) None]> (sessions s)
    ∧ ptys s' = alter (with_onData (filter (λ r, r.1 ≠ d.2))) d.1 (ptys s)
    ∧ xterms s' = xterms s
    ∧ sockets s' = alter with_closed w (sockets s)
    ∧ trace s' = trace s.
Proof.
  intros Hk Hopen Hc Hx Hd. cbn [step]. unfold ws_close. rewrite Hk, Hopen, Hc.
  unfold on_close. cbn [sessions update_socket set_sockets]. rewrite Hx, Hd.
  eexists. split; [reflexivity|]. heap_simpl.
  split; [|done]. by rewrite (alter_alter_lookup _ _ _ _ _ Hx).
Qed.

(** X9. Detach then reattach: the first message of the transport that
    attaches after a detach, with no event in between, is the serialization
    of the Screen Model taken at the detach; when the session no longer
    buffers, the cycle writes nothing into the Screen Model, so that this
    snapshot is the serialization of the Screen Model as it is. *)
Theorem reattach_after_detach_gets_snapshot s w k c x d tm seg :
  sockets s !! w = Some k → closed k = false → handlers k = Some c →
  sessions s !! conn_pid c = Some x → dataHandler x = Some d →
  conn_addon c = xterm x → xterms s !! xterm x = Some tm →
  JS.parseInt seg = Some (conn_pid c) →
  let detached := (step serialize to_text pty_resizable xterm_resizable s (WsClose w)).2 in
  let reattached := (handle detached (WsConnect seg)).2 in
  (∃ k', sockets reattached !! length (sockets s) = Some k' ∧ sent k' = [serialize tm])
  ∧ (temporaryDisposable x = None → xterms reattached = xterms s).
Proof.
  intros Hk Hopen Hc Hx Hd Haddon Htm Hseg detached reattached.
  destruct (ws_close_detaches s w k c x d Hk Hopen Hc Hx Hd)
    as (s1 & Hs1 & Hsess & _ & Hxterms & Hsocks & _).
  assert (detached = s1) as Heq by (subst detached; by rewrite Hs1).
  clearbody detached. subst s1.
  unfold serialize_at in Hsess. rewrite Haddon, Htm in Hsess. cbn [from_option] in Hsess.
  set (x1 := mkSession _ _ _ _ _ _) in Hsess.
  assert (sessions detached !! conn_pid c = Some x1) as Hx1
    by (rewrite Hsess; apply lookup_insert_eq).
  destruct (ws_connect_attached detached seg _ x1 Hseg Hx1)
    as (s2 & Hs2 & _ & Hsock2 & _ & Hxterms2 & _).
  assert (reattached = s2) as Heq by (subst reattached; cbn [step]; by rewrite Hs2).
  clearbody reattached. subst s2.
  assert (length (sockets detached) = length (sockets s)) as Hlen
    by (rewrite Hsocks; apply length_alter).
  split.
  - rewrite Hsock2, <- Hlen. eexists. split; [apply lookup_snoc|done].
  - intros Htmp. rewrite Hxterms2, Hxterms. unfold replays. subst x1. cbn.
    by rewrite Htmp.
Qed.

(** X10. In every state the server reaches, a session is filed under the
    pid of its own process, its terminal is allocated and carries its
    serialize addon, and a buffering listener registered on its process
    buffers for this very pid and is the one the session holds the
    disposable of. *)
Theorem sessions_filed_under_their_pid s p x :
  reachable serialize to_text pty_resizable xterm_resizable s →
  sessions s !! p = Some x →
  ∃ pty tm,
    ptys s !! term x = Some pty ∧ pid pty = p
    ∧ xterms s !! xterm x = Some tm ∧ serializeAddon x = xterm x
    ∧ ∀ id q, (id, BufferData q) ∈ onData pty →
        q = p ∧ temporaryDisposable x = Some (term x, id).
Proof.
  intros Hreach Hx.
  pose proof (reachable_consistent _ _ _ _ s Hreach) as Hcons.
  destruct (session_of_pid s Hcons _ _ Hx) as (pty & Hpty & Hpid).
  destruct (session_terminal s Hcons _ _ Hx) as [Haddon Hlt].
  destruct (lookup_lt_is_Some_2 _ _ Hlt) as [tm Htm].
  exists pty, tm. do 4 (split; [done|]).
  intros id q Hin.
  destruct (buffering_listener s Hcons _ _ _ _ Hpty Hin) as [-> Hheld].
  split; [done|]. apply Hheld; [by rewrite Hpid|done].
Qed.


End Traffic.

(** ** From creation to the first attach and the first detach *)

Section FirstAttach.

Variable serialize : Terminal → string.
Variable to_text : string → string.
Variable pty_resizable xterm_resizable : JS.Num → JS.Num → bool.

Local Abbreviation handle := (step serialize to_text pty_resizable xterm_resizable).
Local Abbreviation emits := (emit serialize to_text pty_resizable xterm_resizable).

(** Chunks of a pty without listeners go nowhere. *)
Lemma emit_no_listeners t ds s pty :
  ptys s !! t = Some pty → onData pty = [] → emits t ds s = s.
Proof.
  intros Hpty Hnone. induction ds as [|d ds IH]; [done|].
  change (emits t (d :: ds) s) with (emits t ds (handle s (PtyData t d)).2).
  cbn [step]. unfold pty_data. rewrite Hpty, Hnone.
  destruct (exited pty); exact IH.
Qed.

(** While the buffering listener is the only one, chunks reach no
    terminal. *)
Lemma emit_buffers_xterms t ds s pty p x id :
  ptys s !! t = Some pty → exited pty = false →
  onData pty = [(id, BufferData p)] → sessions s !! p = Some x →
  xterms (emits t ds s) = xterms s ∧ next_listener (emits t ds s) = next_listener s
  ∧ trace (emits t ds s) = trace s.
Proof.
  revert s x. induction ds as [|d ds IH]; intros s x Hp He Hl Hx; [done|].
  change (emits t (d :: ds) s) with (emits t ds (handle s (PtyData t d)).2).
  simpl. unfold pty_data. rewrite Hp, He, Hl. simpl. rewrite Hx. simpl.
  set (s1 := update_session _ _ s).
  destruct (IH s1 (with_terminalData (terminalData x +:+ to_text d) x))
    as (-> & -> & ->); try done.
  subst s1. simpl. by rewrite lookup_alter_eq, Hx.
Qed.

(** The state a first attach leaves, when the process wrote [ds] first. *)
Lemma first_attach_state s0 c r p ds seg :
  JS.parseInt seg = Some p → raw_output to_text ds ≠ EmptyString →
  let t := length (ptys s0) in
  let x := length (xterms s0) in
  let w := length (sockets s0) in
  let n := next_listener s0 in
  let created := (handle s0 (PostTerminals (Some c) (Some r) (Some p))).2 in
  let buffered := emits t ds created in
  let attached := (handle buffered (WsConnect seg)).2 in
  (∃ tm, xterms buffered !! x = Some tm ∧ written tm = [])
  ∧ (∃ tm, xterms attached !! x = Some tm ∧ written tm = [raw_output to_text ds])
  ∧ sessions attached !! p
      = Some (mkSession t x x (raw_output to_text ds) None (Some (t, S n)))
  ∧ (∃ pty, ptys attached !! t = Some pty ∧ exited pty = false
            ∧ onData pty = [(S n, FanOut x w)])
  ∧ sockets attached
      = sockets s0 ++ [mkSocket [raw_output to_text ds] false (Some (mkConnection p t x))].
Proof.
  intros Hseg Hout t x w n created buffered attached.
  set (x0 := mkSession t x x EmptyString (Some (t, n)) None).
  set (pty0 := mkPty p (Some (JS.or_default (JS.parseInt c) 80))
                 (Some (JS.or_default (JS.parseInt r) 24))
                 [(n, BufferData p)] [] 0 [] false).
  set (tm0 := mkTerminal (Some (JS.or_default (JS.parseInt c) 80))
                (Some (JS.or_default (JS.parseInt r) 24)) [] 0 0).
  assert (ptys created = ptys s0 ++ [pty0]) as Hptys0
    by (subst created; cbn; by rewrite alter_snoc).
  assert (xterms created = xterms s0 ++ [tm0]) as Hxterms0 by done.
  assert (sockets created = sockets s0) as Hsocks0 by done.
  assert (next_listener created = S n) as Hnext0 by done.
  assert (sessions created !! p = Some x0) as Hx0
    by (subst created; cbn; by rewrite lookup_alter_eq, lookup_insert_eq).
  assert (ptys created !! t = Some pty0) as Hpty0 by (rewrite Hptys0; apply lookup_snoc).
  destruct (emit_buffers serialize to_text pty_resizable xterm_resizable
              t ds created pty0 p x0 n Hpty0 eq_refl eq_refl Hx0)
    as (Hptys1 & Hsocks1 & Hsess1).
  destruct (emit_buffers_xterms t ds created pty0 p x0 n Hpty0 eq_refl eq_refl Hx0)
    as (Hxterms1 & Hnext1 & _).
  change (emits t ds created) with buffered
    in Hptys1, Hsocks1, Hsess1, Hxterms1, Hnext1.
  clearbody buffered. clearbody created.
  assert (sessions buffered !! p
          = Some (mkSession t x x (raw_output to_text ds) (Some (t, n)) None))
    as Hsess1' by exact Hsess1.
  destruct (ws_connect_attached buffered seg p _ Hseg Hsess1')
    as (s2 & Hs2 & Hsess2 & Hsock2 & Hptys2 & Hxterms2 & _).
  assert (attached = s2) as Heq by (subst attached; cbn [step]; by rewrite Hs2).
  clearbody attached. subst s2.
  assert (JS.truthy (raw_output to_text ds) = true) as Htruthy
    by (by destruct (raw_output to_text ds)).
  unfold replays in *. cbn in Hsess2, Hsock2, Hptys2, Hxterms2.
  rewrite Htruthy in *.
  rewrite Hptys1, Hptys0, Hnext1, Hnext0 in Hptys2.
  unfold t in Hptys2 at 1 2. rewrite !alter_snoc in Hptys2. cbn in Hptys2.
  rewrite Hxterms1, Hxterms0 in Hxterms2. unfold x in Hxterms2 at 1.
  rewrite alter_snoc in Hxterms2.
  rewrite Hsocks1, Hsocks0 in Hsock2. rewrite Hnext1, Hnext0 in Hsess2.
  split; [|split; [|split; [|split]]].
  - exists tm0. rewrite Hxterms1, Hxterms0. split; [apply lookup_snoc|done].
  - eexists. rewrite Hxterms2. split; [apply lookup_snoc|done].
  - rewrite Hsess2. apply lookup_insert_eq.
  - eexists. rewrite Hptys2. split; [apply lookup_snoc|]. rewrite Hsocks1, Hsocks0.
    unfold pty0. cbn [onData with_onData exited]. split; [done|].
    rewrite filter_cons, decide_False by (cbn; auto). by rewrite filter_nil.
  - done.
Qed.

(** X12. Buffer, then replay: while no transport has attached, the output
    of a new session's process is not written into its Screen Model; the
    first attach writes the whole buffered text into the Screen Model as
    one chunk, ends the buffering and leaves the fan-out listener as the
    only listener of the process. *)
Theorem first_attach_replays_buffer s0 c r p ds seg :
  JS.parseInt seg = Some p → raw_output to_text ds ≠ EmptyString →
  let t := length (ptys s0) in
  let x := length (xterms s0) in
  let created :=
    (step serialize to_text pty_resizable xterm_resizable s0
       (PostTerminals (Some c) (Some r) (Some p))).2 in
  let buffered := emits t ds created in
  let attached := (handle buffered (WsConnect seg)).2 in
  (∃ tm, xterms buffered !! x = Some tm ∧ written tm = [])
  ∧ (∃ tm, xterms attached !! x = Some tm ∧ written tm = [raw_output to_text ds])
  ∧ (∃ y, sessions attached !! p = Some y ∧ ¬ buffering y ∧ forwarding y)
  ∧ (∃ pty, ptys attached !! t = Some pty
            ∧ onData pty = [(S (next_listener s0), FanOut x (length (sockets s0)))]).
Proof.
  intros Hseg Hout t x created buffered attached.
  destruct (first_attach_state s0 c r p ds seg Hseg Hout)
    as (Hbefore & Hafter & Hsess & (pty & Hpty & _ & Hdata) & _).
  split; [exact Hbefore|]. split; [exact Hafter|]. split.
  - eexists. split; [exact Hsess|]. unfold buffering, forwarding. cbn.
    split; [by intros [? ?]|by eexists].
  - by exists pty.
Qed.

(** X13. Output written while detached is dropped: once the first
    transport of a session has attached (the process having written
    before) and closed, no listener is left on the process, so that
    whatever the process writes until the next attach changes nothing,
    neither the buffer, nor the Screen Model, nor any transport. *)
Theorem output_while_detached_is_dropped s0 c r p ds seg ds' :
  JS.parseInt seg = Some p → raw_output to_text ds ≠ EmptyString →
  let t := length (ptys s0) in
  let created :=
    (step serialize to_text pty_resizable xterm_resizable s0
       (PostTerminals (Some c) (Some r) (Some p))).2 in
  let attached := (handle (emits t ds created) (WsConnect seg)).2 in
  let detached := (handle attached (WsClose (length (sockets s0)))).2 in
  emits t ds' detached = detached.
Proof.
  intros Hseg Hout t created attached detached.
  destruct (first_attach_state s0 c r p ds seg Hseg Hout)
    as (_ & _ & Hsess & (pty & Hpty & _ & Hdata) & Hsocks).
  fold t created in Hsess, Hpty, Hsocks. fold attached in Hsess, Hpty, Hsocks.
  clearbody attached.
  assert (∃ pty', ptys detached !! t = Some pty' ∧ onData pty' = []) as (pty' & Hpty' & Hnone).
  { subst detached. cbn [step]. unfold ws_close.
    rewrite Hsocks, lookup_snoc. cbn [closed handlers snd]. unfold on_close.
    cbn [sessions update_socket set_sockets conn_pid]. rewrite Hsess.
    cbn [dataHandler]. heap_simpl. rewrite list_lookup_alter_eq, Hpty.
    eexists. split; [done|]. cbn [onData with_onData]. rewrite Hdata.
    rewrite filter_cons, decide_False by (cbn; auto). by rewrite filter_nil. }
  by apply (emit_no_listeners t ds' detached pty').
Qed.


End FirstAttach.

(** ** Identifiers in routes *)

Lemma append_cons_l (ch : ascii) (a b : string) :
  String ch a +:+ b = String ch (a +:+ b).
Proof. done. Qed.

Lemma pretty_N_go_append (x : N) (s r : string) :
  pretty_N_go x s +:+ r = pretty_N_go x (s +:+ r).
Proof.
  revert s. induction (N.lt_wf_0 x) as [x _ IH]. intros s.
  destruct (decide (x = 0)%N) as [->|Hx]; [by rewrite !pretty_N_go_0|].
  rewrite (pretty_N_go_step x s), (pretty_N_go_step x (s +:+ r)) by lia.
  rewrite IH by (apply N.div_lt; lia). done.
Qed.

(** [parseInt] stops at the first character that is not a digit. *)
Lemma parseInt_pretty_junk (p : Z) (c : ascii) (r : string) :
  JS.digit c = None → JS.parseInt (pretty p +:+ String c r) = Some p.
Proof.
  intros Hc. destruct p as [|q|q].
  - change (pretty 0 +:+ String c r) with (String "0" (String c r)).
    unfold JS.parseInt. cbn [JS.trim_start].
    change (JS.is_white_space "0") with false. cbv iota.
    cbn [JS.digits]. change (JS.digit "0") with (Some 0). cbv iota. by rewrite Hc.
  - change (pretty (Z.pos q)) with (pretty_N_go (N.pos q) EmptyString).
    rewrite pretty_N_go_append. change (EmptyString +:+ String c r) with (String c r).
    destruct (digits_pretty_N_go (N.pos q) (String c r)) as (Hd & n & r' & Hn & Hr); [lia|].
    rewrite Hr, parseInt_leading_digit, <- Hr, Hd by done.
    cbn [JS.digits]. by rewrite Hc.
  - change (pretty (Z.neg q)) with (String "-" (pretty_N_go (N.pos q) EmptyString)).
    rewrite append_cons_l, pretty_N_go_append.
    change (EmptyString +:+ String c r) with (String c r).
    destruct (digits_pretty_N_go (N.pos q) (String c r)) as (Hd & _); [lia|].
    unfold JS.parseInt. cbn [JS.trim_start].
    change (JS.is_white_space "-") with false. cbv iota.
    rewrite Hd. cbn [JS.digits]. by rewrite Hc.
Qed.

Lemma split_nonempty (sep : ascii) (s : string) : split sep s ≠ [].
Proof.
  destruct s as [|c r]; [done|]. cbn [split].
  destruct (Ascii.eqb c sep); [done|]. by destruct (split sep r).
Qed.

Lemma split_append (sep : ascii) (a r : string) :
  split sep (a +:+ String sep r) = split sep a ++ split sep r.
Proof.
  induction a as [|c a IH].
  - change (EmptyString +:+ String sep r) with (String sep r).
    cbn [split]. by rewrite Ascii.eqb_refl.
  - rewrite append_cons_l. cbn [split]. rewrite IH.
    destruct (Ascii.eqb c sep); [done|].
    pose proof (split_nonempty sep a). by destruct (split sep a).
Qed.

Lemma split_no_slash (seg : string) : no_slash seg → split "/" seg = [seg].
Proof.
  unfold no_slash. induction seg as [|c seg IH]; [done|].
  cbn [list_ascii_of_string split]. intros [Hc Hseg]%Forall_cons.
  apply Ascii.eqb_neq in Hc. rewrite Hc, IH by done. done.
Qed.

Lemma last_segment_append (a seg : string) :
  no_slash seg → last_segment (a +:+ String "/" seg) = seg.
Proof.
  intros Hseg. unfold last_segment.
  by rewrite split_append, (split_no_slash seg), last_snoc.
Qed.

Lemma pretty_N_char_no_slash (n : N) : pretty_N_char n ≠ "/"%char.
Proof. unfold pretty_N_char. by repeat case_match. Qed.

Lemma pretty_N_go_no_slash (x : N) (s : string) :
  no_slash s → no_slash (pretty_N_go x s).
Proof.
  revert s. induction (N.lt_wf_0 x) as [x _ IH]. intros s Hs.
  destruct (decide (x = 0)%N) as [->|Hx]; [by rewrite pretty_N_go_0|].
  rewrite pretty_N_go_step by lia. apply IH; [apply N.div_lt; lia|].
  apply Forall_cons. split; [apply pretty_N_char_no_slash|done].
Qed.

Lemma pretty_no_slash (p : Z) : no_slash (pretty p).
Proof.
  destruct p as [|q|q].
  - by repeat constructor.
  - apply pretty_N_go_no_slash. constructor.
  - change (pretty (Z.neg q)) with (String "-" (pretty_N_go (N.pos q) EmptyString)).
    apply Forall_cons. split; [done|]. apply pretty_N_go_no_slash. constructor.
Qed.

Lemma prefix_terminals (rest : string) :
  String.prefix "/terminals/" ("/terminals/" +:+ rest) = true.
Proof. by destruct rest. Qed.

Section Routes.

Variable serialize : Terminal → string.
Variable to_text : string → string.
Variable pty_resizable xterm_resizable : JS.Num → JS.Num → bool.

Local Abbreviation handle := (step serialize to_text pty_resizable xterm_resizable).

(** X15. The routes read a pid leniently: whatever follows the decimal
    digits of a pid in the route parameter or in the last path segment is
    ignored, so that a resize, terminate or attach request naming
    [<pid><junk>], the junk starting with a character that is not a digit,
    acts exactly as the request naming [<pid>]. *)
Theorem routes_ignore_trailing_junk s (p : Z) ch junk cs rs :
  JS.digit ch = None →
  let name := pretty p +:+ String ch junk in
  step serialize to_text pty_resizable xterm_resizable s (PostSize name cs rs)
    = handle s (PostSize (pretty p) cs rs)
  ∧ handle s (PostTerminate name) = handle s (PostTerminate (pretty p))
  ∧ handle s (WsConnect name) = handle s (WsConnect (pretty p)).
Proof.
  intros Hch name. cbn [step]. unfold post_size, post_terminate, ws_connect.
  subst name. by rewrite parseInt_pretty_junk, parseInt_pretty.
Qed.

(** X16. The upgrade handler routes on the prefix and on the last path
    segment only: a pathname under [/terminals/] is handed to the connection
    handler with its last segment, whatever stands between the prefix and
    that segment, and any other pathname leaves the server as it is. *)
Theorem upgrade_routes_on_last_segment s rest seg pathname :
  no_slash seg →
  (rest = seg ∨ ∃ mid, rest = mid +:+ String "/" seg) →
  upgrade ("/terminals/" +:+ rest) s = ws_connect seg s
  ∧ (String.prefix "/terminals/" pathname = false →
     upgrade pathname s = (Completed None, s)).
Proof.
  intros Hseg Hrest. split.
  - unfold upgrade.
    rewrite prefix_terminals.
    f_equal. destruct Hrest as [->|[mid ->]].
    + change ("/terminals/" +:+ seg) with ("/terminals" +:+ String "/" seg).
      by apply last_segment_append.
    + rewrite <- append_assoc. by apply last_segment_append.
  - intros Hprefix. unfold upgrade. by rewrite Hprefix.
Qed.

(** X17. Create, then attach by the answer: an upgrade on [/terminals/]
    followed by the identifier a create-session request answered with
    attaches the new socket to the session just created; the socket's
    callbacks hold that session's pid, process and addon, the session
    forwards, and the first message is the empty buffer. *)
Theorem upgrade_attaches_created_session s c r (p : Z) :
  let created := (handle s (PostTerminals (Some c) (Some r) (Some p))).2 in
  let res := upgrade ("/terminals/" +:+ pretty p) created in
  res.1 = Completed None
  ∧ sockets res.2
      = sockets s ++ [mkSocket [EmptyString] false
                        (Some (mkConnection p (length (ptys s)) (length (xterms s))))]
  ∧ ∃ y, sessions res.2 !! p = Some y ∧ forwarding y
         ∧ term y = length (ptys s) ∧ xterm y = length (xterms s).
Proof.
  intros created res.
  assert (upgrade ("/terminals/" +:+ pretty p) created = ws_connect (pretty p) created)
    as Hroute.
  { unfold upgrade.
    rewrite prefix_terminals.
    f_equal. change ("/terminals/" +:+ pretty p) with ("/terminals" +:+ String "/" (pretty p)).
    apply last_segment_append, pretty_no_slash. }
  set (x0 := mkSession (length (ptys s)) (length (xterms s)) (length (xterms s))
               EmptyString (Some (length (ptys s), next_listener s)) None).
  assert (sessions created !! p = Some x0) as Hx0
    by (subst created; cbn; by rewrite lookup_alter_eq, lookup_insert_eq).
  assert (sockets created = sockets s) as Hsocks by done.
  destruct (ws_connect_attached created (pretty p) p x0 (parseInt_pretty p) Hx0)
    as (s1 & Hs1 & Hsess & Hsock1 & _).
  subst res. rewrite Hroute, Hs1. cbn [fst snd].
  split; [done|]. split; [by rewrite Hsock1, Hsocks|].
  eexists. rewrite Hsess. split; [apply lookup_insert_eq|].
  unfold forwarding. cbn. split; [by eexists|done].
Qed.

End Routes.

(** ** The further properties on concrete runs *)

(** X1 on a run: the transport of the attached session closes. *)
Lemma registry_changes_only_on_create_and_exit_witness :
  files_or_removes (WsClose 0%nat) = false
  ∧ registry_stable Scenario.attached (Sample.step Scenario.attached (WsClose 0%nat)).2.
Proof.
  split; [reflexivity|].
  apply (registry_changes_only_on_create_and_exit Sample.serialize id Sample.resizable
           Sample.resizable Scenario.attached (WsClose 0%nat)).
  reflexivity.
Defined.

(** X2 on a run: the process of the attached session exits. *)
Lemma only_terminate_kills_witness :
  is_terminate (PtyExit 0%nat) = false
  ∧ processes_spared Scenario.attached (Sample.step Scenario.attached (PtyExit 0%nat)).2.
Proof.
  split; [reflexivity|].
  apply (only_terminate_kills Sample.serialize id Sample.resizable Sample.resizable
           Scenario.attached (PtyExit 0%nat)).
  reflexivity.
Defined.

(** X3 on a run: a fresh session is terminated, then its process exits. *)
Lemma exit_removes_hooked_sessions_witness :
  ptys Teardown.terminating !! 0%nat = Some Teardown.pty7
  ∧ exited Teardown.pty7 = false
  ∧ sessions (Sample.step Teardown.terminating (PtyExit 0%nat)).2 !! 7 = None
  ∧ sessions Teardown.terminating !! 7 = Some Scenario.fresh_session.
Proof.
  split; [vm_compute; reflexivity|]. split; [reflexivity|].
  split; [|vm_compute; reflexivity].
  destruct (exit_removes_hooked_sessions Sample.serialize id Sample.resizable
              Sample.resizable Teardown.terminating 0%nat Teardown.pty7 7)
    as (Hsessions & _).
  - vm_compute; reflexivity.
  - reflexivity.
  - etransitivity; [exact Hsessions|]. vm_compute; reflexivity.
Defined.

(** X4 on a run: a terminate request for the attached session. *)
Lemma http_routes_spare_transports_witness :
  is_http (PostTerminate "7") = true
  ∧ sockets (Sample.step Scenario.attached (PostTerminate "7")).2
      = sockets Scenario.attached
  ∧ trace (Sample.step Scenario.attached (PostTerminate "7")).2 = trace Scenario.attached.
Proof.
  split; [reflexivity|].
  apply (http_routes_spare_transports Sample.serialize id Sample.resizable
           Sample.resizable Scenario.attached (PostTerminate "7")).
  reflexivity.
Defined.

(** X5 on a run: the process of the attached session writes. *)
Lemma output_stays_in_its_session_witness :
  reachable Sample.serialize id Sample.resizable Sample.resizable Scenario.attached
  ∧ ptys Scenario.attached !! 0%nat = Some Scenario.pty7_attached
  ∧ ptys (Sample.step Scenario.attached (PtyData 0%nat "x")).2 = ptys Scenario.attached.
Proof.
  split; [exact reachable_attached|]. split; [vm_compute; reflexivity|].
  apply (output_stays_in_its_session Sample.serialize id Sample.resizable
           Sample.resizable Scenario.attached 0%nat Scenario.pty7_attached "x").
  - exact reachable_attached.
  - vm_compute; reflexivity.
Defined.

(** X6 on a run: two inbound messages on the attached socket. *)
Lemma inbound_reaches_process_witness :
  sockets Scenario.attached !! 0%nat = Some Scenario.socket0
  ∧ closed Scenario.socket0 = false
  ∧ handlers Scenario.socket0 = Some (mkConnection 7 0%nat 0%nat)
  ∧ ptys Scenario.attached !! 0%nat = Some Scenario.pty7_attached
  ∧ ∃ pty', ptys (Sample.run [WsMessage 0%nat "ls"; WsMessage 0%nat "pwd"]
                    Scenario.attached) !! 0%nat = Some pty'
            ∧ input pty' = ["ls"; "pwd"].
Proof.
  split; [vm_compute; reflexivity|]. split; [reflexivity|]. split; [reflexivity|].
  split; [vm_compute; reflexivity|].
  destruct (inbound_reaches_process Sample.serialize id Sample.resizable Sample.resizable
              Scenario.attached 0%nat Scenario.socket0 (mkConnection 7 0%nat 0%nat)
              Scenario.pty7_attached ["ls"; "pwd"])
    as ((pty' & Hpty' & Hinput & _) & _).
  - vm_compute; reflexivity.
  - reflexivity.
  - reflexivity.
  - vm_compute; reflexivity.
  - exists pty'. split; [exact Hpty'|exact Hinput].
Defined.


(** X8 on a run: the attached session is terminated and its process exits,
    then its transport closes. *)
Lemma close_without_subscription_witness :
  sockets Teardown.torn_down !! 0%nat = Some Scenario.socket0
  ∧ closed Scenario.socket0 = false
  ∧ handlers Scenario.socket0 = Some (mkConnection 7 0%nat 0%nat)
  ∧ sessions Teardown.torn_down !! 7 = None
  ∧ Sample.step Teardown.torn_down (WsClose 0%nat)
      = (Completed None, update_socket 0%nat with_closed Teardown.torn_down).
Proof.
  split; [vm_compute; reflexivity|]. split; [reflexivity|]. split; [reflexivity|].
  split; [vm_compute; reflexivity|].
  apply (close_without_subscription Sample.serialize id Sample.resizable Sample.resizable
           Teardown.torn_down 0%nat Scenario.socket0 (mkConnection 7 0%nat 0%nat)).
  - vm_compute; reflexivity.
  - reflexivity.
  - reflexivity.
  - left. vm_compute; reflexivity.
Defined.

(** X9 on a run: the transport of the attached session closes and another
    attaches. *)
Lemma reattach_after_detach_gets_snapshot_witness :
  sockets Scenario.attached !! 0%nat = Some Scenario.socket0
  ∧ sessions Scenario.attached !! 7 = Some Scenario.session7_attached
  ∧ xterms Scenario.attached !! 0%nat = Some Scenario.xterm7_attached
  ∧ JS.parseInt "7" = Some 7
  ∧ ∃ k', sockets (Sample.run [WsClose 0%nat; WsConnect "7"] Scenario.attached) !! 1%nat
            = Some k'
          ∧ sent k' = ["snapshot:hello"].
Proof.
  split; [vm_compute; reflexivity|]. split; [vm_compute; reflexivity|].
  split; [vm_compute; reflexivity|]. split; [reflexivity|].
  apply (reattach_after_detach_gets_snapshot Sample.serialize id Sample.resizable
           Sample.resizable Scenario.attached 0%nat Scenario.socket0
           (mkConnection 7 0%nat 0%nat) Scenario.session7_attached (0%nat, 1%nat)
           Scenario.xterm7_attached "7").
  - vm_compute; reflexivity.
  - reflexivity.
  - reflexivity.
  - vm_compute; reflexivity.
  - reflexivity.
  - reflexivity.
  - vm_compute; reflexivity.
  - reflexivity.
Defined.

(** X10 on a run: the attached session. *)
Lemma sessions_filed_under_their_pid_witness :
  reachable Sample.serialize id Sample.resizable Sample.resizable Scenario.attached
  ∧ sessions Scenario.attached !! 7 = Some Scenario.session7_attached
  ∧ ∃ pty tm,
      ptys Scenario.attached !! 0%nat = Some pty ∧ pid pty = 7
      ∧ xterms Scenario.attached !! 0%nat = Some tm.
Proof.
  split; [exact reachable_attached|]. split; [vm_compute; reflexivity|].
  destruct (sessions_filed_under_their_pid Sample.serialize id Sample.resizable
              Sample.resizable Scenario.attached 7 Scenario.session7_attached)
    as (pty & tm & Hpty & Hpid & Htm & _).
  - exact reachable_attached.
  - vm_compute; reflexivity.
  - exists pty, tm. split; [exact Hpty|]. split; [exact Hpid|exact Htm].
Defined.


(** X12 on a run: the process writes ["a"] and ["b"], then a transport
    attaches. *)
Lemma first_attach_replays_buffer_witness :
  JS.parseInt "7" = Some 7
  ∧ raw_output id ["a"; "b"] ≠ EmptyString
  ∧ ∃ tm, xterms (Sample.run [Scenario.create; PtyData 0%nat "a"; PtyData 0%nat "b";
                              WsConnect "7"] init) !! 0%nat = Some tm
          ∧ written tm = ["ab"].
Proof.
  split; [reflexivity|]. split; [discriminate|].
  apply (first_attach_replays_buffer Sample.serialize id Sample.resizable Sample.resizable
           init "80" "24" 7 ["a"; "b"] "7").
  - reflexivity.
  - discriminate.
Defined.

(** X13 on a run: after the detach the process writes ["lost"]. *)
Lemma output_while_detached_is_dropped_witness :
  JS.parseInt "7" = Some 7
  ∧ raw_output id ["hello"] ≠ EmptyString
  ∧ Sample.run [PtyData 0%nat "lost"]
      (Sample.run [Scenario.create; PtyData 0%nat "hello"; WsConnect "7"; WsClose 0%nat] init)
    = Sample.run [Scenario.create; PtyData 0%nat "hello"; WsConnect "7"; WsClose 0%nat] init.
Proof.
  split; [reflexivity|]. split; [discriminate|].
  apply (output_while_detached_is_dropped Sample.serialize id Sample.resizable
           Sample.resizable init "80" "24" 7 ["hello"] "7" ["lost"]).
  - reflexivity.
  - discriminate.
Defined.

(** X15 on a run: [7abc] names session 7. *)
Lemma routes_ignore_trailing_junk_witness :
  JS.digit "a" = None
  ∧ Sample.step Scenario.attached (PostTerminate "7abc")
    = Sample.step Scenario.attached (PostTerminate "7").
Proof.
  split; [reflexivity|].
  apply (routes_ignore_trailing_junk Sample.serialize id Sample.resizable Sample.resizable
           Scenario.attached 7 "a" "bc" "80" "24").
  reflexivity.
Defined.

(** X16 on a run: [/terminals/a/b/7] attaches to session 7. *)
Lemma upgrade_routes_on_last_segment_witness :
  no_slash "7"
  ∧ upgrade "/terminals/a/b/7" Scenario.unattached = ws_connect "7" Scenario.unattached.
Proof.
  split; [by repeat constructor|].
  apply (upgrade_routes_on_last_segment Scenario.unattached "a/b/7" "7" EmptyString).
  - by repeat constructor.
  - right. by exists "a/b".
Defined.
